(** * OCR bridge and editor handle of the yuque browser extension

    A shallow embedding of the OCR manager (an iframe bridge speaking a
    request/response protocol over [postMessage]) and of the imperative
    handle of the lake editor wrapper, followed by the properties proved
    about them. *)

From Stdlib Require Import ZArith Lia Bool List String.
From Stdlib Require Import Floats.SpecFloat.
From Stdlib Require Import Sorting.Sorted Sorting.Permutation.
From stdpp Require Import base gmap strings list fin_maps.

Local Open Scope string_scope.
Local Open Scope list_scope.
Local Open Scope Z_scope.

(** ** JavaScript numbers

    A JS [number] is an IEEE 754 binary64 value.  The Standard Library's
    [spec_float] is used as its model, at precision 53 and maximal
    exponent 1024. *)

Definition prec : Z := 53.
Definition emax : Z := 1024.

Definition number := spec_float.

(** The well-formed doubles: a finite value has its canonical mantissa and
    exponent. *)
Definition is_double (n : number) : Prop := valid_binary prec emax n = true.

Definition NaN : number := S754_nan.
Definition Infinity : number := S754_infinity false.

(** The double of an integer literal. *)
Definition lit (z : Z) : number := binary_normalize prec emax z 0 false.

(** Global [isNaN] applied to a number. *)
Definition isNaN (n : number) : bool :=
  match n with
  | S754_nan => true
  | _ => false
  end.

(** [Number.isFinite]: neither NaN nor an infinity. *)
Definition isFinite (n : number) : bool :=
  match n with
  | S754_nan | S754_infinity _ => false
  | _ => true
  end.

(** [a !== b] on numbers. *)
Definition strict_ne (a b : number) : bool := negb (SFeqb a b).

(** [a - b] on numbers. *)
Definition minus (a b : number) : number := SFsub prec emax a b.

(** ** Exceptions

    A computation either completes with a value or throws. *)

Inductive Exception := TypeError.

Inductive Outcome (A : Type) :=
  | Normal (a : A)
  | Throw (e : Exception).
Arguments Normal {A} a.
Arguments Throw {A} e.

#[global] Instance Outcome_bind : MBind Outcome := fun A B f m =>
  match m with
  | Normal a => f a
  | Throw e => Throw e
  end.

(** ** Recognition results *)

Record IOcrResultItem := {
  text : string;
  x : number;
  y : number;
  width : number;
  height : number
}.

(** What an element of the array received from the frame can be, as far as
    [startOCR] looks at it: an object, of which the properties [x] and [y]
    are read, or [null]/[undefined], on which reading a property throws. *)
Inductive Item :=
  | ItemRegion (r : IOcrResultItem)
  | ItemNullish.

(** The [data] property of a response, as far as [startOCR] looks at it. *)
Inductive Data :=
  | DataFalsy                      (* undefined, null, false, 0, NaN, '' *)
  | DataArray (items : list Item)  (* an array *)
  | DataOther.                     (* a truthy value without a [filter] method *)

(** [item.x] and [item.y]. *)
Definition get_x (i : Item) : Outcome number :=
  match i with
  | ItemRegion r => Normal (x r)
  | ItemNullish => Throw TypeError
  end.

Definition get_y (i : Item) : Outcome number :=
  match i with
  | ItemRegion r => Normal (y r)
  | ItemNullish => Throw TypeError
  end.

(** The callback of [filter]: [item => !isNaN(item.x) && !isNaN(item.y)].
    [&&] reads [item.y] only when the left operand is true. *)
Definition filterFn (item : Item) : Outcome bool :=
  vx ← get_x item;
  if negb (isNaN vx) then
    vy ← get_y item;
    Normal (negb (isNaN vy))
  else Normal false.

(** [Array.prototype.filter] with a callback that may throw. *)
Fixpoint Array_filter (f : Item -> Outcome bool) (l : list Item)
  : Outcome (list Item) :=
  match l with
  | [] => Normal []
  | i :: l' =>
      b ← f i;
      r ← Array_filter f l';
      Normal (if b : bool then i :: r else r)
  end.

(** The comparator of [sort]:
    [(a, b) => { if (a.y !== b.y) return a.y - b.y; return a.x - b.x; }] *)
Definition compareFn (a b : Item) : Outcome number :=
  ay ← get_y a;
  by_ ← get_y b;
  if strict_ne ay by_ then
    Normal (minus ay by_)
  else
    ax ← get_x a;
    bx ← get_x b;
    Normal (minus ax bx).

(** What [Array.prototype.sort] makes of the number [v] a comparator
    returns: NaN counts as +0, and only the sign of [v] matters. *)
Definition SortCompare (v : number) : comparison :=
  match v with
  | S754_nan | S754_zero _ => Eq
  | S754_infinity s | S754_finite s _ _ => if s then Lt else Gt
  end.

(** [Array.prototype.sort] is the runtime's.  Since ECMAScript 2019 it is
    a stable sort; it is taken here as the insertion sort that puts each
    element before the first one it does not compare greater than. *)
Fixpoint sort_insert (cmp : Item -> Item -> Outcome number) (a : Item)
  (l : list Item) : Outcome (list Item) :=
  match l with
  | [] => Normal [a]
  | b :: l' =>
      v ← cmp a b;
      match SortCompare v with
      | Gt => r ← sort_insert cmp a l'; Normal (b :: r)
      | _ => Normal (a :: l)
      end
  end.

Fixpoint Array_sort (cmp : Item -> Item -> Outcome number) (l : list Item)
  : Outcome (list Item) :=
  match l with
  | [] => Normal []
  | a :: l' => r ← Array_sort cmp l'; sort_insert cmp a r
  end.

(** ** Messages

    The object a [message] event carries in [event.data], as far as
    [messageFunc] and [startOCR] look at it.  A property that is missing,
    or that holds a value of another type, is [None]: it is then equal to
    no string the code compares it with, and to no key of the
    [resolveCache] map, whose keys are the numbers of [getRequestID]. *)
Record Envelope := {
  e_key : option string;
  e_requestId : option Z;
  e_type : option string;
  e_data : Data
}.

(** [event.data] is an object, or [null]/[undefined], on which reading
    [key] throws. *)
Inductive EventData :=
  | EventObject (e : Envelope)
  | EventNullish.

(** A value an [async] call of the manager can produce or await. *)
Inductive Value :=
  | VUndefined
  | VBool (b : bool)
  | VEnvelope (e : Envelope)
  | VArray (items : list Item).

(** ToBoolean. *)
Definition truthy (v : Value) : bool :=
  match v with
  | VUndefined => false
  | VBool b => b
  | VEnvelope _ | VArray _ => true
  end.

(** The [try] block of [startOCR] (lines 89-97) on [ocrResult]. *)
Definition postProcess (ocrResult : Data) : Outcome (list Item) :=
  match ocrResult with
  | DataArray items =>
      result ← Array_filter filterFn items;
      Array_sort compareFn result
  | _ => Throw TypeError
  end.

(** [res?.data]. *)
Definition res_data (res : Value) : Data :=
  match res with
  | VEnvelope e => e_data e
  | _ => DataFalsy
  end.

(** Lines 88-101: [res?.data || []], then the [try]/[catch]; the [catch]
    block is empty, so after an exception the function ends without a
    [return]. *)
Definition or_empty (data : Data) : Data :=
  match data with
  | DataFalsy => DataArray []
  | d => d
  end.

Definition normalize (data : Data) : Value :=
  let ocrResult := or_empty data in
  match postProcess ocrResult with
  | Normal result => VArray result
  | Throw _ => VUndefined
  end.

Definition region (vx vy : number) : Item :=
  ItemRegion {| text := ""; x := vx; y := vy; width := lit 1; height := lit 1 |}.

(** ** The OCR manager *)

Definition key : string := "ocr-message".
Definition ocrIframeId : string := "yq-ocr-iframe-id".

(** The properties [init] sets on the frame it creates. *)
Record HTMLIFrameElement := {
  iframe_src : string;
  iframe_id : string;
  iframe_display : string
}.

Inductive OcrType := file | blob | url.

Inductive Content :=
  | ContentFile (name : string)
  | ContentBlob (size : N)
  | ContentString (s : string).

(** The object [sendMessageRef] posts into the frame:
    [{ key, requestId, ...requestData }]. *)
Record PostedMessage := {
  m_key : string;
  m_requestId : Z;
  m_action : string;
  m_data : option (OcrType * Content)
}.

Inductive Promise (A : Type) :=
  | Pending
  | Fulfilled (v : A).
Arguments Pending {A}.
Arguments Fulfilled {A} v.

(** What an [await] waits for. *)
Inductive Awaitable :=
  | InitPromise                (* the promise made in [init] *)
  | RequestPromise (p : nat)   (* a promise made by [sendMessageRef] *)
  | Settled (v : Value).       (* a value that is not a promise *)

(** The points at which an [async] call is suspended. *)
Inductive Continuation :=
  | startOCR_79 (type : OcrType) (content : Content)  (* after [await this.init()] *)
  | startOCR_80 (type : OcrType) (content : Content)  (* after [await ocrManager.isWebOcrReady()] *)
  | startOCR_88                                       (* after [await this.sendMessage('startOcr', ...)] *)
  | isWebOcrReady_104.                                (* after [await this.sendMessage('isWebOcrReady')] *)

Inductive Call :=
  | Suspended (on : Awaitable) (k : Continuation)
  | Returned (v : Value).

(** The page: the manager, the closures of [init] and [getRequestID], the
    promises made by [sendMessageRef] (a promise is its index in
    [promises]), and the effects on the surroundings.  The function given
    to [new Promise] in [init] runs only while [this.iframe] is unset, and
    sets it, so its variables ([resolveCache], [messageFunc], the timeout)
    are held once. *)
Record State := {
  clock : Z;                            (* milliseconds *)
  ocrProxyPage : string;                (* LinkHelper.ocrProxyPage *)
  body : list HTMLIFrameElement;        (* frames appended to document.body *)
  iframe : option HTMLIFrameElement;    (* this.iframe *)
  sendMessageRef : bool;                (* this.sendMessageRef is assigned *)
  getRequestID_id : Z;                  (* [id] of getRequestID *)
  resolveCache : gmap Z nat;            (* requestId to the promise its callback resolves *)
  listening : bool;                     (* messageFunc is a listener of window *)
  timer : option Z;                     (* when the pending setTimeout is due *)
  initPromise : option (Promise bool);  (* the promise made in init *)
  promises : list (Promise Envelope);
  posted : list PostedMessage;          (* postMessage calls on the frame *)
  delivered : list (nat * Envelope);    (* calls of the callbacks of resolveCache *)
  calls : list Call;                    (* the async calls made so far *)
  console : list string
}.

Definition initial (page : string) : State := {|
  clock := 0; ocrProxyPage := page; body := []; iframe := None;
  sendMessageRef := false; getRequestID_id := 0; resolveCache := ∅;
  listening := false; timer := None; initPromise := None; promises := [];
  posted := []; delivered := []; calls := []; console := []
|}.

(** Assignments to one component of the state. *)
Definition set_clock (v : Z) (st : State) : State :=
  {| clock := v; ocrProxyPage := ocrProxyPage st; body := body st; iframe :=
     iframe st; sendMessageRef := sendMessageRef st; getRequestID_id :=
     getRequestID_id st; resolveCache := resolveCache st; listening :=
     listening st; timer := timer st; initPromise := initPromise st; promises
     := promises st; posted := posted st; delivered := delivered st; calls :=
     calls st; console := console st |}.
Definition set_body (v : list HTMLIFrameElement) (st : State) : State :=
  {| clock := clock st; ocrProxyPage := ocrProxyPage st; body := v; iframe :=
     iframe st; sendMessageRef := sendMessageRef st; getRequestID_id :=
     getRequestID_id st; resolveCache := resolveCache st; listening :=
     listening st; timer := timer st; initPromise := initPromise st; promises
     := promises st; posted := posted st; delivered := delivered st; calls :=
     calls st; console := console st |}.
Definition set_iframe (v : option HTMLIFrameElement) (st : State) : State :=
  {| clock := clock st; ocrProxyPage := ocrProxyPage st; body := body st;
     iframe := v; sendMessageRef := sendMessageRef st; getRequestID_id :=
     getRequestID_id st; resolveCache := resolveCache st; listening :=
     listening st; timer := timer st; initPromise := initPromise st; promises
     := promises st; posted := posted st; delivered := delivered st; calls :=
     calls st; console := console st |}.
Definition set_sendMessageRef (v : bool) (st : State) : State :=
  {| clock := clock st; ocrProxyPage := ocrProxyPage st; body := body st;
     iframe := iframe st; sendMessageRef := v; getRequestID_id :=
     getRequestID_id st; resolveCache := resolveCache st; listening :=
     listening st; timer := timer st; initPromise := initPromise st; promises
     := promises st; posted := posted st; delivered := delivered st; calls :=
     calls st; console := console st |}.
Definition set_getRequestID_id (v : Z) (st : State) : State :=
  {| clock := clock st; ocrProxyPage := ocrProxyPage st; body := body st;
     iframe := iframe st; sendMessageRef := sendMessageRef st;
     getRequestID_id := v; resolveCache := resolveCache st; listening :=
     listening st; timer := timer st; initPromise := initPromise st; promises
     := promises st; posted := posted st; delivered := delivered st; calls :=
     calls st; console := console st |}.
Definition set_resolveCache (v : gmap Z nat) (st : State) : State :=
  {| clock := clock st; ocrProxyPage := ocrProxyPage st; body := body st;
     iframe := iframe st; sendMessageRef := sendMessageRef st;
     getRequestID_id := getRequestID_id st; resolveCache := v; listening :=
     listening st; timer := timer st; initPromise := initPromise st; promises
     := promises st; posted := posted st; delivered := delivered st; calls :=
     calls st; console := console st |}.
Definition set_listening (v : bool) (st : State) : State :=
  {| clock := clock st; ocrProxyPage := ocrProxyPage st; body := body st;
     iframe := iframe st; sendMessageRef := sendMessageRef st;
     getRequestID_id := getRequestID_id st; resolveCache := resolveCache st;
     listening := v; timer := timer st; initPromise := initPromise st;
     promises := promises st; posted := posted st; delivered := delivered st;
     calls := calls st; console := console st |}.
Definition set_timer (v : option Z) (st : State) : State :=
  {| clock := clock st; ocrProxyPage := ocrProxyPage st; body := body st;
     iframe := iframe st; sendMessageRef := sendMessageRef st;
     getRequestID_id := getRequestID_id st; resolveCache := resolveCache st;
     listening := listening st; timer := v; initPromise := initPromise st;
     promises := promises st; posted := posted st; delivered := delivered st;
     calls := calls st; console := console st |}.
Definition set_initPromise (v : option (Promise bool)) (st : State) : State :=
  {| clock := clock st; ocrProxyPage := ocrProxyPage st; body := body st;
     iframe := iframe st; sendMessageRef := sendMessageRef st;
     getRequestID_id := getRequestID_id st; resolveCache := resolveCache st;
     listening := listening st; timer := timer st; initPromise := v; promises
     := promises st; posted := posted st; delivered := delivered st; calls :=
     calls st; console := console st |}.
Definition set_promises (v : list (Promise Envelope)) (st : State) : State :=
  {| clock := clock st; ocrProxyPage := ocrProxyPage st; body := body st;
     iframe := iframe st; sendMessageRef := sendMessageRef st;
     getRequestID_id := getRequestID_id st; resolveCache := resolveCache st;
     listening := listening st; timer := timer st; initPromise := initPromise
     st; promises := v; posted := posted st; delivered := delivered st; calls
     := calls st; console := console st |}.
Definition set_posted (v : list PostedMessage) (st : State) : State :=
  {| clock := clock st; ocrProxyPage := ocrProxyPage st; body := body st;
     iframe := iframe st; sendMessageRef := sendMessageRef st;
     getRequestID_id := getRequestID_id st; resolveCache := resolveCache st;
     listening := listening st; timer := timer st; initPromise := initPromise
     st; promises := promises st; posted := v; delivered := delivered st;
     calls := calls st; console := console st |}.
Definition set_delivered (v : list (nat * Envelope)) (st : State) : State :=
  {| clock := clock st; ocrProxyPage := ocrProxyPage st; body := body st;
     iframe := iframe st; sendMessageRef := sendMessageRef st;
     getRequestID_id := getRequestID_id st; resolveCache := resolveCache st;
     listening := listening st; timer := timer st; initPromise := initPromise
     st; promises := promises st; posted := posted st; delivered := v; calls
     := calls st; console := console st |}.
Definition set_calls (v : list Call) (st : State) : State :=
  {| clock := clock st; ocrProxyPage := ocrProxyPage st; body := body st;
     iframe := iframe st; sendMessageRef := sendMessageRef st;
     getRequestID_id := getRequestID_id st; resolveCache := resolveCache st;
     listening := listening st; timer := timer st; initPromise := initPromise
     st; promises := promises st; posted := posted st; delivered := delivered
     st; calls := v; console := console st |}.
Definition set_console (v : list string) (st : State) : State :=
  {| clock := clock st; ocrProxyPage := ocrProxyPage st; body := body st;
     iframe := iframe st; sendMessageRef := sendMessageRef st;
     getRequestID_id := getRequestID_id st; resolveCache := resolveCache st;
     listening := listening st; timer := timer st; initPromise := initPromise
     st; promises := promises st; posted := posted st; delivered := delivered
     st; calls := calls st; console := v |}.

(** ** [getRequestID]

    [id++] on a double: exact below 2^53; from there on the sum 2^53 + 1
    is rounded back to 2^53. *)
Definition increment (n : Z) : Z := if n <? 2 ^ 53 then n + 1 else n.
Arguments increment : simpl never.

Definition getRequestID (st : State) : State * Z :=
  let n := increment (getRequestID_id st) in
  (set_getRequestID_id n st, n).

(** ** Promises *)

(** Calling the resolving function of a promise: only the first call has
    an effect. *)
Definition resolve {A} (v : A) (p : Promise A) : Promise A :=
  match p with
  | Pending => Fulfilled v
  | Fulfilled w => Fulfilled w
  end.

(** The callback [data => { resolve1(data); }] that resolves promise [p]. *)
Definition callback (p : nat) (data : Envelope) (st : State) : State :=
  set_delivered (delivered st ++ [(p, data)])
    (set_promises (alter (resolve data) p (promises st)) st).

(** ** [sendMessageRef] (lines 48-62)

    The function assigned to [this.sendMessageRef]: it makes a promise,
    takes a request id, stores the callback under it, posts the message
    and returns the promise. *)
Definition sendMessageRef_call (action : string)
  (data : option (OcrType * Content)) (st : State) : State * nat :=
  let p := length (promises st) in
  let st := set_promises (promises st ++ [Pending]) st in
  let '(st, requestId) := getRequestID st in
  let st := set_resolveCache (<[requestId := p]> (resolveCache st)) st in
  let st := set_posted (posted st ++
              [{| m_key := key; m_requestId := requestId;
                  m_action := action; m_data := data |}]) st in
  (st, p).

(** ** [sendMessage] (lines 107-115) *)
Definition sendMessage (action : string) (data : option (OcrType * Content))
  (st : State) : State * Awaitable :=
  if negb (sendMessageRef st) then (st, Settled VUndefined)
  else
    let '(st, p) := sendMessageRef_call action data st in
    (st, RequestPromise p).

(** ** [messageFunc] (lines 41-65) *)
Definition messageFunc (event_data : EventData) (st : State) : State :=
  match event_data with
  | EventNullish => st   (* TypeError in the listener: nothing is changed *)
  | EventObject e =>
      if negb (bool_decide (e_key e = Some key)) then st
      else
        let st :=
          match e_requestId e with
          | Some r =>
              match resolveCache st !! r with
              | Some p =>
                  set_resolveCache (delete r (resolveCache st)) (callback p e st)
              | None => st
              end
          | None => st
          end in
        if bool_decide (e_type e = Some "ocr-ready") then
          set_initPromise (resolve true <$> initPromise st)
            (set_sendMessageRef true st)
        else st
  end.

(** The callback given to [setTimeout] (lines 68-70). *)
Definition timeoutFunc (st : State) : State :=
  set_initPromise (resolve false <$> initPromise st) st.

(** ** [init] (lines 28-74)

    The result is what the promise returned by the [async] function
    follows: [undefined] after the early [return], the promise made on
    line 32 otherwise. *)
Definition init (st : State) : State * Awaitable :=
  match iframe st with
  | Some _ => (st, Settled VUndefined)
  | None =>
      let f := {| iframe_src := ocrProxyPage st; iframe_id := ocrIframeId;
                  iframe_display := "none" |} in
      let st := set_initPromise (Some Pending) st in
      let st := set_iframe (Some f) st in
      let st := set_body (body st ++ [f]) st in
      let st := set_resolveCache ∅ st in
      let st := set_timer (Some (clock st + 1000 * 30)) st in
      let st := set_listening true st in
      (st, InitPromise)
  end.

(** ** [startOCR] (lines 76-101) and [isWebOcrReady] (lines 103-105)

    An [async] call runs up to its first [await] and is then continued,
    piece by piece, whenever what it waits for is there. *)

(** The value an [await] of [a] continues with, once there is one. *)
Definition awaited (a : Awaitable) (st : State) : option Value :=
  match a with
  | Settled v => Some v
  | InitPromise =>
      match initPromise st with
      | Some (Fulfilled b) => Some (VBool b)
      | _ => None
      end
  | RequestPromise p =>
      match promises st !! p with
      | Some (Fulfilled e) => Some (VEnvelope e)
      | _ => None
      end
  end.

(** [ocrManager.isWebOcrReady()] awaits what [sendMessage] returns and
    returns it; a caller awaiting that call gets the same value, so the
    caller is taken to wait for what [sendMessage] returned. *)
Definition continue (k : Continuation) (v : Value) (st : State) : State * Call :=
  match k with
  | startOCR_79 type content =>
      let '(st, a) := sendMessage "isWebOcrReady" None st in
      (st, Suspended a (startOCR_80 type content))
  | startOCR_80 type content =>
      if negb (truthy v) then
        (set_console (console st ++ ["ocr is not ready"]) st, Returned (VArray []))
      else
        let '(st, a) := sendMessage "startOcr" (Some (type, content)) st in
        (st, Suspended a startOCR_88)
  | startOCR_88 => (st, Returned (normalize (res_data v)))
  | isWebOcrReady_104 => (st, Returned v)
  end.

Definition startOCR (type : OcrType) (content : Content) (st : State) : State :=
  let '(st, a) := init st in
  set_calls (calls st ++ [Suspended a (startOCR_79 type content)]) st.

Definition isWebOcrReady (st : State) : State :=
  let '(st, a) := sendMessage "isWebOcrReady" None st in
  set_calls (calls st ++ [Suspended a isWebOcrReady_104]) st.

(** Continuing the [k]-th call, if it is suspended on something settled. *)
Definition resume (k : nat) (st : State) : State :=
  match calls st !! k with
  | Some (Suspended a cont) =>
      match awaited a st with
      | Some v =>
          let '(st, c) := continue cont v st in
          set_calls (<[k := c]> (calls st)) st
      | None => st
      end
  | _ => st
  end.

(** ** The event loop *)

Inductive Event :=
  | CallInit                                        (* ocrManager.init() *)
  | CallStartOCR (type : OcrType) (content : Content)  (* ocrManager.startOCR(type, content) *)
  | CallIsWebOcrReady                               (* ocrManager.isWebOcrReady() *)
  | Message (event_data : EventData)                (* a message event on window *)
  | TimerFires                                      (* the timeout of init, once due *)
  | Elapse (ms : N)                                 (* time passes *)
  | Resume (k : nat).                               (* the k-th call is continued *)

(** An event that cannot take place leaves the state as it is. *)
Definition step (st : State) (ev : Event) : State :=
  match ev with
  | CallInit => fst (init st)
  | CallStartOCR type content => startOCR type content st
  | CallIsWebOcrReady => isWebOcrReady st
  | Message d => if listening st then messageFunc d st else st
  | TimerFires =>
      match timer st with
      | Some due =>
          if due <=? clock st then timeoutFunc (set_timer None st) else st
      | None => st
      end
  | Elapse ms => set_clock (clock st + Z.of_N ms) st
  | Resume k => resume k st
  end.

Definition run (tr : list Event) (st : State) : State := fold_left step tr st.

(** ** The imperative handle of the editor wrapper (editor.tsx, lines 158-193)

    The hosted editor is a third-party object.  What the handle does to it
    and to the frame is recorded as the list of calls made, in order; what
    the editor answers is taken from the [Editor] at hand. *)

Inductive EditorCall :=
  | execCommand (name : string) (arg : option string)  (* editor.execCommand(name, arg) *)
  | kernel_paste (html : string)     (* editor.kernel.execCommand('paste', ...) with getData returning html *)
  | setDocument (format html : string)
  | getDocument (format : string)
  | queryCommandValue (name : string)
  | iframe_focus.                    (* iframeRef.current.focus() *)

Record Editor := {
  document_as : string -> string;    (* what getDocument(format) returns *)
  command_value : string -> bool     (* what queryCommandValue(name) returns *)
}.

(** The handle is made from the [editor] state variable ([null] until the
    editor has been created) and the frame reference. *)
Record Handle := {
  editor : option Editor;
  iframeRef_current : bool           (* iframeRef.current is not null *)
}.

(** [iframeRef.current?.focus()] *)
Definition focus_frame (h : Handle) : list EditorCall :=
  if iframeRef_current h then [iframe_focus] else [].

Definition appendContent (h : Handle) (html : string) (breakLine : bool)
  : list EditorCall :=
  match editor h with
  | None => []
  | Some _ =>
      (if breakLine then [execCommand "breakLine" None] else [])
      ++ [kernel_paste html]
      ++ focus_frame h
      ++ [execCommand "focus" (Some "end")]
  end.

Definition setContent (h : Handle) (html : string) : list EditorCall :=
  match editor h with
  | None => []
  | Some _ =>
      focus_frame h
      ++ [setDocument "text/html" html]
      ++ [execCommand "focus" (Some "end")]
  end.

Definition isEmpty (h : Handle) : bool * list EditorCall :=
  match editor h with
  | None => (true, [])
  | Some ed => (command_value ed "isEmpty", [queryCommandValue "isEmpty"])
  end.

Definition getContent (h : Handle) (type : string) : string * list EditorCall :=
  match editor h with
  | None => ("", [])
  | Some ed =>
      if String.eqb type "lake" then
        (document_as ed "text/lake", [getDocument "text/lake"])
      else if String.eqb type "text/html" then
        (document_as ed "text/html", [getDocument "text/html"])
      else
        (document_as ed "description", [getDocument "description"])
  end.

(** ** Orders used in the statements *)

Definition sign_of (s : bool) : comparison := if s then Lt else Gt.

(** An integer that orders the doubles as IEEE comparison does: a finite
    double is scaled to a multiple of the least positive double, and the
    infinities lie beyond every finite one. *)
Definition num_key (n : number) : Z :=
  match n with
  | S754_nan | S754_zero _ => 0
  | S754_infinity s => cond_Zopp s (2 ^ (emax - emin prec emax))
  | S754_finite s m e => cond_Zopp s (Zpos m * 2 ^ (e - emin prec emax))
  end.

(** The regions [filterFn] keeps. *)
Definition retained (r : IOcrResultItem) : bool :=
  negb (isNaN (x r)) && negb (isNaN (y r)).

(** Both coordinates are doubles. *)
Definition well_formed (r : IOcrResultItem) : Prop :=
  is_double (x r) /\ is_double (y r).

(** Reading order: ascending [y], and ascending [x] where [y] is equal,
    with the comparisons of IEEE 754, which are those of JS. *)
Definition reading_order (a b : IOcrResultItem) : Prop :=
  SFltb (y a) (y b) = true \/
  (SFeqb (y a) (y b) = true /\ SFleb (x a) (x b) = true).

(** The same order on the keys. *)
Definition key_compare (a b : IOcrResultItem) : comparison :=
  match num_key (y a) ?= num_key (y b) with
  | Eq => num_key (x a) ?= num_key (x b)
  | c => c
  end.

(** A region [sort] can get: its coordinates are doubles and not NaN. *)
Definition sortable (r : IOcrResultItem) : Prop :=
  well_formed r /\ retained r = true.

Definition key_le (a b : IOcrResultItem) : Prop := key_compare a b <> Gt.

(** An item [filterFn] lets through. *)
Definition kept (i : Item) : Prop :=
  exists r, i = ItemRegion r /\ isNaN (x r) = false /\ isNaN (y r) = false.

(** A message event that [messageFunc] takes as the readiness signal. *)
Definition signals_ready (d : EventData) : bool :=
  match d with
  | EventObject e =>
      bool_decide (e_key e = Some key) && bool_decide (e_type e = Some "ocr-ready")
  | EventNullish => false
  end.

(** How the promise of [init] is settled along a trace that starts at
    time [now] with the timeout due at [due]: by the first readiness
    signal or the first firing of the timeout once it is due, whichever
    comes first. *)
Fixpoint settlement (now due : Z) (tr : list Event) : Promise bool :=
  match tr with
  | [] => Pending
  | Message d :: tr' =>
      if signals_ready d then Fulfilled true else settlement now due tr'
  | TimerFires :: tr' =>
      if due <=? now then Fulfilled false else settlement now due tr'
  | Elapse ms :: tr' => settlement (now + Z.of_N ms) due tr'
  | _ :: tr' => settlement now due tr'
  end.

(** What holds of the requests in every state the page can reach. *)
Record Invariant (st : State) : Prop := {
  inv_promises : length (posted st) = length (promises st);
  inv_id : getRequestID_id st = Z.min (Z.of_nat (length (posted st))) (2 ^ 53);
  inv_posted : forall i m, posted st !! i = Some m ->
    m_requestId m = Z.min (Z.of_nat i + 1) (2 ^ 53);
  inv_cache : forall r p, resolveCache st !! r = Some p ->
    promises st !! p = Some Pending /\
    (forall e, ~ In (p, e) (delivered st)) /\
    exists m, posted st !! p = Some m /\ m_requestId m = r;
  inv_delivered : forall p e, In (p, e) (delivered st) ->
    e_key e = Some key /\
    promises st !! p = Some (Fulfilled e) /\
    exists m, posted st !! p = Some m /\ e_requestId e = Some (m_requestId m);
  inv_once : NoDup (map fst (delivered st))
}.

Definition ready_envelope : Envelope :=
  {| e_key := Some key; e_requestId := None; e_type := Some "ocr-ready";
     e_data := DataFalsy |}.

Definition reply (r : Z) (d : Data) : Envelope :=
  {| e_key := Some key; e_requestId := Some r; e_type := None; e_data := d |}.

Definition sample_regions : list IOcrResultItem :=
  [ {| text := "b"; x := lit 5; y := lit 10; width := lit 2; height := lit 1 |};
    {| text := "a"; x := lit 1; y := lit 10; width := lit 2; height := lit 1 |};
    {| text := "t"; x := lit 0; y := lit 5; width := lit 9; height := lit 1 |};
    {| text := "n"; x := NaN; y := lit 3; width := lit 1; height := lit 1 |} ].

(** The promise of [init] is pending, with the timeout due at [due]. *)
Definition waiting (due : Z) (st : State) : Prop :=
  iframe st <> None /\ listening st = true /\
  initPromise st = Some Pending /\ timer st = Some due.

(** The promise of [init] is settled with [b]. *)
Definition settled (b : bool) (st : State) : Prop :=
  iframe st <> None /\ initPromise st = Some (Fulfilled b).

(** The time after an event. *)
Definition clock_after (now : Z) (ev : Event) : Z :=
  match ev with
  | Elapse ms => now + Z.of_N ms
  | _ => now
  end.

(** Two states agree on the manager, the listener, the timeout, the
    promise of [init] and the time. *)
Definition same_manager (st st' : State) : Prop :=
  iframe st' = iframe st /\ listening st' = listening st /\
  initPromise st' = initPromise st /\ timer st' = timer st /\
  clock st' = clock st /\ sendMessageRef st' = sendMessageRef st.

(** An accepted envelope whose type is the string "ready". *)
Definition type_ready_envelope : Envelope :=
  {| e_key := Some key; e_requestId := None; e_type := Some "ready";
     e_data := DataFalsy |}.

(** The sign [sort] sees when it calls the comparator on two regions. *)
Definition compare_sign (a b : IOcrResultItem) : option comparison :=
  match compareFn (ItemRegion a) (ItemRegion b) with
  | Normal v => Some (SortCompare v)
  | Throw _ => None
  end.

Definition sample_t : IOcrResultItem :=
  {| text := "t"; x := lit 0; y := lit 5; width := lit 9; height := lit 1 |}.
Definition sample_a : IOcrResultItem :=
  {| text := "a"; x := lit 1; y := lit 10; width := lit 2; height := lit 1 |}.
Definition sample_b : IOcrResultItem :=
  {| text := "b"; x := lit 5; y := lit 10; width := lit 2; height := lit 1 |}.

(** [sample_regions] without the region at NaN, in reading order. *)
Definition sample_sorted : list IOcrResultItem := [sample_t; sample_a; sample_b].

(** A message [messageFunc] does not accept: its data is [null] or
    [undefined], or its [key] is not the manager's. *)
Definition foreign (d : EventData) : bool :=
  match d with
  | EventObject e => negb (bool_decide (e_key e = Some key))
  | EventNullish => true
  end.

(** The time that passes along a trace. *)
Fixpoint elapsed (tr : list Event) : Z :=
  match tr with
  | [] => 0
  | Elapse ms :: tr' => Z.of_N ms + elapsed tr'
  | _ :: tr' => elapsed tr'
  end.

(** The two messages the manager sends: the readiness request, without
    data, and the recognition request, with its [{type, content}]. *)
Definition manager_message (m : PostedMessage) : Prop :=
  m_key m = key /\
  ((m_action m = "isWebOcrReady" /\ m_data m = None) \/
   (m_action m = "startOcr" /\ m_data m <> None)).

(** How the transport, the listener, the frame and the pending requests
    hang together in every state the page can reach. *)
Record Connected (st : State) : Prop := {
  con_listening : sendMessageRef st = true -> listening st = true;
  con_frame : listening st = true -> iframe st <> None;
  con_posted : sendMessageRef st = false -> posted st = [];
  con_pending : Z.of_nat (length (posted st)) < 2 ^ 53 ->
    forall p, promises st !! p = Some Pending ->
      resolveCache st !! (Z.of_nat p + 1) = Some p
}.

(** The calls there can be while the transport is not in place: a
    [startOCR] waiting for [init] or for the answer [undefined] of the
    readiness check, an [isWebOcrReady] about to return [undefined], and
    calls that have returned the empty array or [undefined]. *)
Definition without_transport (c : Call) : Prop :=
  match c with
  | Suspended InitPromise (startOCR_79 _ _) => True
  | Suspended (Settled _) (startOCR_79 _ _) => True
  | Suspended (Settled VUndefined) (startOCR_80 _ _) => True
  | Suspended (Settled VUndefined) isWebOcrReady_104 => True
  | Returned (VArray []) => True
  | Returned VUndefined => True
  | _ => False
  end.



(** * Properties *)

(** ** Doubles: the sign of a difference and the order

    [num_key] orders the doubles as IEEE comparison does, and the sign of
    a difference of two doubles is the order of their keys: a difference
    of distinct doubles does not round to zero. *)

Lemma prec_pos : 0 < prec.
Proof. reflexivity. Qed.

Lemma prec_lt_emax : prec < emax.
Proof. reflexivity. Qed.

Ltac double_format :=
  pose proof prec_pos as pr_pos; pose proof prec_lt_emax as pr_lt_em.

Lemma digits2_pos_bounds (m : positive) :
  2 ^ (Zpos (digits2_pos m) - 1) <= Zpos m < 2 ^ Zpos (digits2_pos m).
Proof.
  induction m as [m IH | m IH |]; cbn [digits2_pos].
  - rewrite Pos2Z.inj_succ.
    replace (Z.succ (Zpos (digits2_pos m)) - 1) with (Z.succ (Zpos (digits2_pos m) - 1)) by lia.
    rewrite !Z.pow_succ_r by lia. lia.
  - rewrite Pos2Z.inj_succ.
    replace (Z.succ (Zpos (digits2_pos m)) - 1) with (Z.succ (Zpos (digits2_pos m) - 1)) by lia.
    rewrite !Z.pow_succ_r by lia. lia.
  - cbn. lia.
Qed.

Lemma iter_pos_nat {A} (f : A -> A) (n : positive) (a : A) :
  SpecFloat.iter_pos f n a = Nat.iter (Pos.to_nat n) f a.
Proof.
  revert a. induction n as [n IH | n IH |]; intro a; cbn [SpecFloat.iter_pos].
  - rewrite !IH, <- Nat.iter_succ_r, <- Nat.iter_add.
    f_equal. rewrite Pos2Nat.inj_xI. lia.
  - rewrite !IH, <- Nat.iter_add.
    f_equal. rewrite Pos2Nat.inj_xO. lia.
  - reflexivity.
Qed.

Lemma shr_1_m (r : shr_record) :
  0 <= shr_m r -> shr_m (shr_1 r) = shr_m r / 2.
Proof.
  destruct r as [m r s]. cbn [shr_m]. intros Hm.
  destruct m as [| [q | q |] | q]; cbn [shr_1 shr_m]; try lia.
  - reflexivity.
  - apply Z.div_unique with 1; lia.
  - apply Z.div_unique with 0; lia.
  - reflexivity.
Qed.

Lemma shr_iter_m (n : nat) (r : shr_record) :
  0 <= shr_m r -> shr_m (Nat.iter n shr_1 r) = shr_m r / 2 ^ Z.of_nat n.
Proof.
  intros Hm. induction n as [| n IH].
  - cbn. now rewrite Z.div_1_r.
  - change (Nat.iter (S n) shr_1 r) with (shr_1 (Nat.iter n shr_1 r)).
    rewrite shr_1_m.
    + rewrite IH, Nat2Z.inj_succ, Z.pow_succ_r by lia.
      rewrite Z.div_div by lia. f_equal. lia.
    + rewrite IH. apply Z.div_pos; lia.
Qed.

Lemma shr_fexp_pos (m : positive) (e : Z) (l : location) :
  emin prec emax <= e ->
  exists q e', shr_m (fst (shr_fexp prec emax (Zpos m) e l)) = Zpos q /\
               snd (shr_fexp prec emax (Zpos m) e l) = e' /\ emin prec emax <= e'.
Proof.
  double_format.
  intros He. unfold shr_fexp, shr. cbn [Zdigits2].
  pose proof (digits2_pos_bounds m) as [Hlo Hhi].
  set (d := Zpos (digits2_pos m)) in *.
  assert (Hd : 0 < d) by (subst d; lia).
  destruct (fexp prec emax (d + e) - e) as [| n | n] eqn:Hn.
  - exists m, e. destruct l as [| []]; cbn; auto.
  - exists (Z.to_pos (Zpos m / 2 ^ Zpos n)), (e + Zpos n).
    cbn [fst snd]. rewrite iter_pos_nat, shr_iter_m.
    2:{ destruct l as [| []]; cbn; lia. }
    rewrite positive_nat_Z.
    assert (Hm : shr_m (shr_record_of_loc (Zpos m) l) = Zpos m)
      by (destruct l as [| []]; reflexivity).
    rewrite Hm. split; [| split; [reflexivity | lia]].
    assert (Hnd : Zpos n <= d - 1) by (unfold fexp in Hn; lia).
    assert (2 ^ Zpos n <= Zpos m).
    { eapply Z.le_trans; [| exact Hlo]. apply Z.pow_le_mono_r; lia. }
    assert (0 < Zpos m / 2 ^ Zpos n) by (apply Z.div_str_pos; lia).
    rewrite Z2Pos.id; lia.
  - exists m, e. destruct l as [| []]; cbn; auto.
Qed.

Lemma round_nearest_even_pos (q : positive) (l : location) :
  exists q', round_nearest_even (Zpos q) l = Zpos q'.
Proof.
  destruct l as [| []]; cbn [round_nearest_even];
    try destruct (Z.even (Zpos q));
    solve [ exists q; reflexivity | exists (q + 1)%positive; reflexivity ].
Qed.

Lemma binary_round_aux_sign (s : bool) (m : positive) (e : Z) (l : location) :
  emin prec emax <= e ->
  SortCompare (binary_round_aux prec emax s (Zpos m) e l) = sign_of s.
Proof.
  intros He. unfold binary_round_aux.
  destruct (shr_fexp_pos m e l He) as (q & e' & Hq & He' & Hmin).
  destruct (shr_fexp prec emax (Zpos m) e l) as [mrs1 e1]. cbn [fst snd] in *.
  subst e1. rewrite Hq.
  destruct (round_nearest_even_pos q (loc_of_shr_record mrs1)) as [q' ->].
  destruct (shr_fexp_pos q' e' loc_Exact Hmin) as (q2 & e2 & Hq2 & _ & _).
  destruct (shr_fexp prec emax (Zpos q') e' loc_Exact) as [mrs2 e3].
  cbn [fst snd] in *. rewrite Hq2.
  destruct (e3 <=? emax - prec); reflexivity.
Qed.

Lemma binary_round_sign (s : bool) (m : positive) (e : Z) :
  emin prec emax <= e ->
  SortCompare (binary_round prec emax s m e) = sign_of s.
Proof.
  intros He. unfold binary_round.
  destruct (shl_align m e (fexp prec emax (Zpos (digits2_pos m) + e)))
    as [mz ez] eqn:Hal.
  apply binary_round_aux_sign.
  unfold shl_align in Hal.
  destruct (fexp prec emax (Zpos (digits2_pos m) + e) - e) eqn:Hd;
    inversion Hal; subst; try assumption.
  unfold fexp. lia.
Qed.

Lemma binary_normalize_sign (z e : Z) (sz : bool) :
  emin prec emax <= e ->
  SortCompare (binary_normalize prec emax z e sz) = (z ?= 0).
Proof.
  intros He. destruct z as [| m | m]; cbn [binary_normalize].
  - reflexivity.
  - now rewrite binary_round_sign.
  - now rewrite binary_round_sign.
Qed.

Lemma bounded_inv (m : positive) (e : Z) :
  bounded prec emax m e = true ->
  emin prec emax <= e <= emax - prec /\
  Zpos (digits2_pos m) <= prec /\
  (emin prec emax < e -> Zpos (digits2_pos m) = prec).
Proof.
  unfold bounded, canonical_mantissa, fexp.
  rewrite andb_true_iff, Z.eqb_eq, Z.leb_le. lia.
Qed.

Lemma finite_key_bound (m : positive) (e : Z) :
  bounded prec emax m e = true ->
  0 < Zpos m * 2 ^ (e - emin prec emax) < 2 ^ (emax - emin prec emax).
Proof.
  intros Hb. destruct (bounded_inv m e Hb) as ((Hlo & Hhi) & Hd & _).
  pose proof (digits2_pos_bounds m) as [_ Hm].
  assert (H1 : Zpos m < 2 ^ prec).
  { eapply Z.lt_le_trans; [exact Hm |]. apply Z.pow_le_mono_r; lia. }
  assert (H2 : 0 < 2 ^ (e - emin prec emax)) by (apply Z.pow_pos_nonneg; lia).
  assert (H3 : 2 ^ (e - emin prec emax) <= 2 ^ (emax - prec - emin prec emax))
    by (apply Z.pow_le_mono_r; lia).
  replace (emax - emin prec emax) with (prec + (emax - prec - emin prec emax)) by lia.
  rewrite Z.pow_add_r by lia. split; [lia |].
  apply Z.lt_le_trans with (2 ^ prec * 2 ^ (e - emin prec emax)); nia.
Qed.

Lemma magnitude_lt (m1 m2 : positive) (e1 e2 : Z) :
  bounded prec emax m1 e1 = true -> bounded prec emax m2 e2 = true -> e1 < e2 ->
  Zpos m1 * 2 ^ (e1 - emin prec emax) < Zpos m2 * 2 ^ (e2 - emin prec emax).
Proof.
  intros Hb1 Hb2 Hlt.
  destruct (bounded_inv m1 e1 Hb1) as ((Hlo1 & _) & Hd1 & _).
  destruct (bounded_inv m2 e2 Hb2) as (_ & _ & Hd2).
  pose proof (digits2_pos_bounds m1) as [_ Hm1].
  pose proof (digits2_pos_bounds m2) as [Hm2 _].
  rewrite Hd2 in Hm2 by lia.
  assert (H1 : Zpos m1 < 2 ^ prec).
  { eapply Z.lt_le_trans; [exact Hm1 |]. apply Z.pow_le_mono_r; lia. }
  assert (H2 : 0 < 2 ^ (e1 - emin prec emax)) by (apply Z.pow_pos_nonneg; lia).
  assert (H3 : 2 ^ (e1 - emin prec emax + 1) <= 2 ^ (e2 - emin prec emax))
    by (apply Z.pow_le_mono_r; lia).
  rewrite Z.pow_add_r in H3 by lia.
  assert (H4 : 2 ^ prec = 2 ^ (prec - 1) * 2).
  { replace prec with (prec - 1 + 1) at 1 by lia. rewrite Z.pow_add_r by lia.
    reflexivity. }
  change (2 ^ 1) with 2 in H3.
  apply Z.lt_le_trans with (2 ^ prec * 2 ^ (e1 - emin prec emax)); [nia |].
  rewrite H4. nia.
Qed.

Lemma inf_key_pos : 0 < 2 ^ (emax - emin prec emax).
Proof. double_format. apply Z.pow_pos_nonneg; unfold emin; lia. Qed.

Ltac order_goal :=
  match goal with
  | |- Lt = (_ ?= _) => symmetry; apply Z.compare_lt_iff
  | |- Gt = (_ ?= _) => symmetry; apply Z.compare_gt_iff
  | |- Eq = (_ ?= _) => symmetry; apply Z.compare_eq_iff
  end.

Lemma mul_compare_r (n m p : Z) :
  0 < p -> (n * p ?= m * p) = (n ?= m).
Proof.
  intros Hp. destruct (Z.compare_spec n m) as [H | H | H].
  - subst. apply Z.compare_refl.
  - apply Z.compare_lt_iff. nia.
  - apply Z.compare_gt_iff. nia.
Qed.

Lemma SFcompare_key (a b : spec_float) :
  is_double a -> is_double b -> isNaN a = false -> isNaN b = false ->
  SFcompare a b = Some (num_key a ?= num_key b).
Proof.
  unfold is_double.
  pose proof inf_key_pos as Hinf.
  destruct a as [sa | sa | | sa ma ea], b as [sb | sb | | sb mb eb];
    cbn [valid_binary SFcompare num_key isNaN]; intros Ha Hb Na Nb;
    try congruence; f_equal;
    try (pose proof (finite_key_bound _ _ Ha) as Ka);
    try (pose proof (finite_key_bound _ _ Hb) as Kb);
    try (destruct sa, sb; cbn [cond_Zopp]; first [reflexivity | order_goal; lia]).
  - destruct sa, sb; cbn [cond_Zopp]; try (order_goal; lia).
    + rewrite Z.compare_opp.
      destruct (Z.compare_spec ea eb) as [He | He | He].
      * subst eb. rewrite Pos.compare_cont_spec. cbn [Pos.switch_Eq].
        rewrite mul_compare_r by lia.
        rewrite <- Pos2Z.inj_compare, Pos.compare_antisym.
        destruct (mb ?= ma)%positive; reflexivity.
      * order_goal. now apply magnitude_lt.
      * order_goal. now apply magnitude_lt.
    + destruct (Z.compare_spec ea eb) as [He | He | He].
      * subst eb. rewrite Pos.compare_cont_spec. cbn [Pos.switch_Eq].
        rewrite mul_compare_r by lia.
        rewrite <- Pos2Z.inj_compare.
        destruct (ma ?= mb)%positive; reflexivity.
      * order_goal. now apply magnitude_lt.
      * order_goal. now apply magnitude_lt.
Qed.

Lemma shl_align_value (m : positive) (e e' : Z) :
  e' <= e -> Zpos (fst (shl_align m e e')) = Zpos m * 2 ^ (e - e').
Proof.
  intros Hle. unfold shl_align.
  destruct (e' - e) as [| d | d] eqn:Hd; cbn [fst]; try lia.
  - replace (e - e') with 0 by lia. lia.
  - replace (e - e') with (Zpos d) by lia.
    change (Pos.iter xO m d) with (shift_pos d m).
    rewrite shift_pos_correct. change (Z.pow_pos 2 d) with (2 ^ Zpos d). lia.
Qed.

Lemma aligned_key (s : bool) (m : positive) (e ez : Z) :
  emin prec emax <= ez <= e ->
  cond_Zopp s (Zpos m * 2 ^ (e - emin prec emax)) =
  cond_Zopp s (Zpos (fst (shl_align m e ez))) * 2 ^ (ez - emin prec emax).
Proof.
  intros H. rewrite shl_align_value by lia.
  replace (e - emin prec emax) with ((e - ez) + (ez - emin prec emax)) by lia.
  rewrite Z.pow_add_r by lia. destruct s; cbn [cond_Zopp]; lia.
Qed.

Lemma SFsub_key (a b : spec_float) :
  is_double a -> is_double b -> isNaN a = false -> isNaN b = false ->
  SortCompare (SFsub prec emax a b) = (num_key a ?= num_key b).
Proof.
  unfold is_double.
  pose proof inf_key_pos as Hinf.
  destruct a as [sa | sa | | sa ma ea], b as [sb | sb | | sb mb eb];
    cbn [valid_binary SFsub num_key isNaN]; intros Ha Hb Na Nb;
    try congruence;
    try (pose proof (finite_key_bound _ _ Ha) as Ka);
    try (pose proof (finite_key_bound _ _ Hb) as Kb);
    try (destruct sa, sb; cbn [cond_Zopp SortCompare negb];
         first [reflexivity | order_goal; lia]).
  destruct (bounded_inv _ _ Ha) as ((Ha1 & _) & _).
  destruct (bounded_inv _ _ Hb) as ((Hb1 & _) & _).
  rewrite binary_normalize_sign by lia.
  rewrite <- Z.compare_sub.
  rewrite (aligned_key sa ma ea (Z.min ea eb)) by lia.
  rewrite (aligned_key sb mb eb (Z.min ea eb)) by lia.
  rewrite mul_compare_r; [reflexivity |].
  apply Z.pow_pos_nonneg; lia.
Qed.

Example normalize_reading_order_example :
  normalize (DataArray [region (lit 5) (lit 10); region (lit 1) (lit 10);
                        region (lit 0) (lit 5); region NaN (lit 3)])
  = VArray [region (lit 0) (lit 5); region (lit 1) (lit 10); region (lit 5) (lit 10)].
Proof. vm_compute. reflexivity. Qed.

Example scenario_ok :
  let st := run [CallStartOCR url (ContentString "u"); Message (EventObject ready_envelope);
                 Resume 0; Message (EventObject (reply 1 DataFalsy)); Resume 0;
                 Message (EventObject (reply 2 (DataArray [region (lit 1) (lit 1)])));
                 Resume 0]%nat (initial "proxy") in
  calls st = [Returned (VArray [region (lit 1) (lit 1)])]
  /\ map m_action (posted st) = ["isWebOcrReady"; "startOcr"]
  /\ map m_requestId (posted st) = [1; 2]
  /\ initPromise st = Some (Fulfilled true).
Proof. vm_compute. auto. Qed.

(** ** The comparisons of IEEE 754 on the keys *)

Lemma SFltb_key (a b : number) :
  is_double a -> is_double b -> isNaN a = false -> isNaN b = false ->
  SFltb a b = true <-> num_key a < num_key b.
Proof.
  intros Ha Hb Na Nb. unfold SFltb. rewrite SFcompare_key by assumption.
  destruct (Z.compare_spec (num_key a) (num_key b)); split; intros; try lia;
    try discriminate; reflexivity.
Qed.

Lemma SFeqb_key (a b : number) :
  is_double a -> is_double b -> isNaN a = false -> isNaN b = false ->
  SFeqb a b = true <-> num_key a = num_key b.
Proof.
  intros Ha Hb Na Nb. unfold SFeqb. rewrite SFcompare_key by assumption.
  destruct (Z.compare_spec (num_key a) (num_key b)); split; intros; try lia;
    try discriminate; reflexivity.
Qed.

Lemma SFleb_key (a b : number) :
  is_double a -> is_double b -> isNaN a = false -> isNaN b = false ->
  SFleb a b = true <-> num_key a <= num_key b.
Proof.
  intros Ha Hb Na Nb. unfold SFleb. rewrite SFcompare_key by assumption.
  destruct (Z.compare_spec (num_key a) (num_key b)); split; intros; try lia;
    try discriminate; reflexivity.
Qed.

Lemma key_compare_le (a b : IOcrResultItem) :
  key_compare a b <> Gt <->
  num_key (y a) < num_key (y b) \/
  (num_key (y a) = num_key (y b) /\ num_key (x a) <= num_key (x b)).
Proof.
  unfold key_compare.
  destruct (Z.compare_spec (num_key (y a)) (num_key (y b)));
    destruct (Z.compare_spec (num_key (x a)) (num_key (x b)));
    split; intros; try lia; congruence.
Qed.

Lemma retained_inv (r : IOcrResultItem) :
  retained r = true <-> isNaN (x r) = false /\ isNaN (y r) = false.
Proof.
  unfold retained. rewrite andb_true_iff, !negb_true_iff. reflexivity.
Qed.

Lemma reading_order_key (a b : IOcrResultItem) :
  well_formed a -> well_formed b -> retained a = true -> retained b = true ->
  reading_order a b <-> key_compare a b <> Gt.
Proof.
  intros [Hax Hay] [Hbx Hby] [Nax Nay]%retained_inv [Nbx Nby]%retained_inv.
  unfold reading_order.
  rewrite key_compare_le, SFltb_key, SFeqb_key, SFleb_key by assumption.
  reflexivity.
Qed.

(** On regions with coordinates that are doubles and not NaN, the
    comparator does not throw, and the sign [sort] sees is the order of the
    keys. *)
Lemma compareFn_key (a b : IOcrResultItem) :
  well_formed a -> well_formed b -> retained a = true -> retained b = true ->
  exists v, compareFn (ItemRegion a) (ItemRegion b) = Normal v /\
            SortCompare v = key_compare a b.
Proof.
  intros [Hax Hay] [Hbx Hby] [Nax Nay]%retained_inv [Nbx Nby]%retained_inv.
  unfold compareFn, key_compare, strict_ne, SFeqb, minus. cbn.
  rewrite (SFcompare_key (y a) (y b)) by assumption.
  destruct (num_key (y a) ?= num_key (y b)) eqn:Hy; cbn;
    eexists; (split; [reflexivity |]).
  - now apply SFsub_key.
  - rewrite SFsub_key by assumption. exact Hy.
  - rewrite SFsub_key by assumption. exact Hy.
Qed.

(** ** [filter] and [sort] *)

Lemma filterFn_region (r : IOcrResultItem) :
  filterFn (ItemRegion r) = Normal (retained r).
Proof.
  unfold filterFn, retained. cbn.
  destruct (isNaN (x r)); cbn; [reflexivity |].
  destruct (isNaN (y r)); reflexivity.
Qed.

Lemma Array_filter_regions (rs : list IOcrResultItem) :
  Array_filter filterFn (map ItemRegion rs)
  = Normal (map ItemRegion (List.filter retained rs)).
Proof.
  induction rs as [| r rs IH]; [reflexivity |].
  cbn [map Array_filter List.filter]. rewrite IH, filterFn_region. cbn.
  destruct (retained r); reflexivity.
Qed.

Lemma Array_filter_kept (l r : list Item) :
  Array_filter filterFn l = Normal r -> Forall kept r.
Proof.
  revert r. induction l as [| i l IH]; intros r; cbn [Array_filter].
  - intros [= <-]. constructor.
  - destruct i as [reg |]; [| discriminate].
    rewrite filterFn_region. cbn.
    destruct (Array_filter filterFn l) as [r' |]; cbn; [| discriminate].
    specialize (IH r' eq_refl).
    destruct (retained reg) eqn:Hreg; intros [= <-]; [| exact IH].
    constructor; [| exact IH].
    apply retained_inv in Hreg. exists reg. tauto.
Qed.

Lemma sort_insert_Permutation cmp (a : Item) (l r : list Item) :
  sort_insert cmp a l = Normal r -> Permutation (a :: l) r.
Proof.
  revert r. induction l as [| b l IH]; intros r; cbn [sort_insert].
  - intros [= <-]. reflexivity.
  - destruct (cmp a b) as [v |]; cbn; [| discriminate].
    destruct (SortCompare v); try (intros [= <-]; reflexivity).
    destruct (sort_insert cmp a l) as [r' |]; cbn; [| discriminate].
    intros [= <-]. rewrite perm_swap. constructor. now apply IH.
Qed.

Lemma Array_sort_Permutation cmp (l r : list Item) :
  Array_sort cmp l = Normal r -> Permutation l r.
Proof.
  revert r. induction l as [| a l IH]; intros r; cbn [Array_sort].
  - intros [= <-]. reflexivity.
  - destruct (Array_sort cmp l) as [r' |]; cbn; [| discriminate].
    intros H%sort_insert_Permutation. rewrite <- H. constructor. now apply IH.
Qed.

Lemma key_le_trans (a b c : IOcrResultItem) :
  key_le a b -> key_le b c -> key_le a c.
Proof. unfold key_le. rewrite !key_compare_le. lia. Qed.

Lemma key_le_total (a b : IOcrResultItem) :
  key_compare a b = Gt -> key_le b a.
Proof.
  unfold key_le. rewrite key_compare_le. unfold key_compare.
  destruct (Z.compare_spec (num_key (y a)) (num_key (y b)));
    destruct (Z.compare_spec (num_key (x a)) (num_key (x b)));
    intros; try discriminate; lia.
Qed.

Lemma sort_insert_sorted (a : IOcrResultItem) (l : list IOcrResultItem) :
  sortable a -> Forall sortable l -> StronglySorted key_le l ->
  exists out,
    sort_insert compareFn (ItemRegion a) (map ItemRegion l)
    = Normal (map ItemRegion out)
    /\ Permutation (a :: l) out /\ StronglySorted key_le out.
Proof.
  intros Ga Gl Sl. induction l as [| b l IH].
  - exists [a]. repeat split; [reflexivity | repeat constructor].
  - apply Forall_cons_iff in Gl as [Gb Gl].
    apply StronglySorted_inv in Sl as [Sl Hb].
    cbn [map sort_insert].
    destruct (compareFn_key a b) as (v & -> & Hv); try apply Ga; try apply Gb.
    cbn. rewrite Hv.
    destruct (key_compare a b) eqn:Hab.
    1,2: exists (a :: b :: l); repeat split; [reflexivity |];
      assert (Hle : key_le a b) by (unfold key_le; congruence);
      constructor; [now constructor |];
      constructor; [exact Hle |];
      eapply Forall_impl; [exact Hb |]; intros c Hc;
      exact (key_le_trans a b c Hle Hc).
    destruct (IH Gl Sl) as (out & -> & Hperm & Hsorted). cbn.
    exists (b :: out). repeat split.
    + rewrite perm_swap. now constructor.
    + constructor; [exact Hsorted |].
      eapply Permutation_Forall; [exact Hperm |].
      constructor; [now apply key_le_total | exact Hb].
Qed.

Lemma Array_sort_sorted (l : list IOcrResultItem) :
  Forall sortable l ->
  exists out,
    Array_sort compareFn (map ItemRegion l) = Normal (map ItemRegion out)
    /\ Permutation l out /\ StronglySorted key_le out.
Proof.
  induction l as [| a l IH]; intros Gl.
  - exists []. repeat split; constructor.
  - apply Forall_cons_iff in Gl as [Ga Gl].
    destruct (IH Gl) as (out & Hout & Hperm & Hsorted).
    cbn [map Array_sort]. rewrite Hout. cbn.
    destruct (sort_insert_sorted a out Ga) as (out' & -> & Hperm' & Hsorted');
      [eapply Permutation_Forall; eassumption | exact Hsorted |].
    exists out'. repeat split; [| exact Hsorted'].
    rewrite <- Hperm'. now constructor.
Qed.

Lemma sorted_reading_order (l : list IOcrResultItem) :
  Forall sortable l -> StronglySorted key_le l -> StronglySorted reading_order l.
Proof.
  intros Gl Sl. induction Sl as [| a l Sl IH Ha]; [constructor |].
  apply Forall_cons_iff in Gl as [Ga Gl].
  constructor; [now apply IH |].
  rewrite Forall_forall in *. intros b Hb.
  apply reading_order_key; try apply Ga; try apply (Gl b Hb).
  now apply Ha.
Qed.

(** ** The result of [startOCR] *)

Lemma normalize_regions (rs : list IOcrResultItem) :
  Forall well_formed rs ->
  exists out,
    normalize (DataArray (map ItemRegion rs)) = VArray (map ItemRegion out)
    /\ Permutation (List.filter retained rs) out
    /\ StronglySorted reading_order out.
Proof.
  intros Hwf.
  assert (Hgood : Forall sortable (List.filter retained rs)).
  { rewrite List.Forall_forall in *. intros r [Hin Hret]%filter_In.
    split; auto. }
  destruct (Array_sort_sorted _ Hgood) as (out & Hout & Hperm & Hsorted).
  exists out. unfold normalize, postProcess. cbn [or_empty].
  rewrite Array_filter_regions. cbn. rewrite Hout.
  repeat split; [exact Hperm |].
  apply sorted_reading_order; [| exact Hsorted].
  eapply Permutation_Forall; eassumption.
Qed.

(** C4: [startOCR] returns the retained regions (those of the response
    with neither coordinate NaN) sorted by ascending [y] and, where [y] is
    equal, by ascending [x]; on the regions
    [{x:5,y:10}, {x:1,y:10}, {x:0,y:5}, {x:NaN,y:3}] the result is
    [{x:0,y:5}, {x:1,y:10}, {x:5,y:10}]. *)
Theorem startOCR_sorts_by_y_then_x :
  (forall rs : list IOcrResultItem,
      Forall well_formed rs ->
      exists out,
        normalize (DataArray (map ItemRegion rs)) = VArray (map ItemRegion out)
        /\ Permutation (List.filter retained rs) out
        /\ StronglySorted reading_order out)
  /\ normalize (DataArray [region (lit 5) (lit 10); region (lit 1) (lit 10);
                           region (lit 0) (lit 5); region NaN (lit 3)])
     = VArray [region (lit 0) (lit 5); region (lit 1) (lit 10);
               region (lit 5) (lit 10)].
Proof.
  split; [exact normalize_regions | exact normalize_reading_order_example].
Qed.

Lemma startOCR_sorts_by_y_then_x_witness :
  Forall well_formed sample_regions /\
  exists out,
    normalize (DataArray (map ItemRegion sample_regions))
    = VArray (map ItemRegion out)
    /\ Permutation (List.filter retained sample_regions) out
    /\ StronglySorted reading_order out.
Proof.
  assert (Hwf : Forall well_formed sample_regions)
    by (repeat constructor; vm_compute; reflexivity).
  split; [exact Hwf |].
  exact (proj1 startOCR_sorts_by_y_then_x sample_regions Hwf).
Defined.

Lemma normalize_kept (data : Data) (result : list Item) :
  normalize data = VArray result -> Forall kept result.
Proof.
  unfold normalize, postProcess.
  destruct (or_empty data) as [| items |]; try discriminate.
  destruct (Array_filter filterFn items) as [r1 |] eqn:Hf; cbn; [| discriminate].
  destruct (Array_sort compareFn r1) as [r2 |] eqn:Hs; [| discriminate].
  intros [= <-].
  eapply Permutation_Forall; [eapply Array_sort_Permutation; exact Hs |].
  eapply Array_filter_kept; exact Hf.
Qed.

(** C3, as the code has it: every region of the response whose [x] or [y]
    is NaN is discarded before sorting; whatever the response, the list
    [startOCR] returns holds only regions whose [x] and [y] are not NaN.
    (An infinite coordinate is not NaN, and such a region is kept.) *)
Theorem startOCR_discards_NaN (data : Data) (result : list Item) :
  normalize data = VArray result ->
  forall i, In i result ->
    exists r, i = ItemRegion r /\ isNaN (x r) = false /\ isNaN (y r) = false.
Proof.
  intros H%normalize_kept i Hi. rewrite List.Forall_forall in H. exact (H i Hi).
Qed.

Lemma startOCR_discards_NaN_witness :
  normalize (DataArray [region NaN (lit 3); region (lit 0) (lit 5)])
  = VArray [region (lit 0) (lit 5)]
  /\ exists r, region (lit 0) (lit 5) = ItemRegion r
               /\ isNaN (x r) = false /\ isNaN (y r) = false.
Proof.
  assert (H : normalize (DataArray [region NaN (lit 3); region (lit 0) (lit 5)])
              = VArray [region (lit 0) (lit 5)])
    by (vm_compute; reflexivity).
  split; [exact H |].
  apply (startOCR_discards_NaN _ _ H). left. reflexivity.
Defined.

(** C3, as stated, fails: a region whose [x] is [Infinity] is not finite,
    and [startOCR] returns it. *)
Lemma startOCR_keeps_infinite_region :
  normalize (DataArray [region Infinity (lit 0)])
  = VArray [region Infinity (lit 0)]
  /\ isFinite Infinity = false.
Proof. split; vm_compute; reflexivity. Qed.

(** C7, as the code has it: an exception raised while filtering and
    sorting is caught, and [startOCR] then yields [undefined], whatever the
    exception; nothing is propagated.  The outcome is the same for every
    error, but it is not that of an empty result, which is the empty
    array. *)
Theorem startOCR_swallows_exceptions :
  (forall (data : Data) (e : Exception),
      postProcess (or_empty data) = Throw e -> normalize data = VUndefined)
  /\ (forall data : Data,
        normalize data = VUndefined \/ exists items, normalize data = VArray items)
  /\ normalize DataFalsy = VArray []
  /\ normalize (DataArray []) = VArray [].
Proof.
  repeat split.
  - intros data e H. unfold normalize. now rewrite H.
  - intros data. unfold normalize.
    destruct (postProcess (or_empty data)); eauto.
Qed.

Lemma startOCR_swallows_exceptions_witness :
  postProcess (or_empty (DataArray [region (lit 1) (lit 1); ItemNullish]))
  = Throw TypeError
  /\ normalize (DataArray [region (lit 1) (lit 1); ItemNullish]) = VUndefined.
Proof.
  assert (H : postProcess (or_empty (DataArray [region (lit 1) (lit 1); ItemNullish]))
              = Throw TypeError) by (vm_compute; reflexivity).
  split; [exact H |].
  exact (proj1 startOCR_swallows_exceptions _ _ H).
Defined.

(** C7, as stated, fails: after an exception [startOCR] yields
    [undefined], while an empty result is the empty array; the two
    differ. *)
Lemma startOCR_error_differs_from_empty :
  postProcess (or_empty DataOther) = Throw TypeError
  /\ normalize DataOther = VUndefined
  /\ normalize (DataArray []) = VArray []
  /\ normalize DataOther <> normalize (DataArray []).
Proof. repeat split; try (vm_compute; reflexivity). discriminate. Qed.

(** ** The frame *)

Ltac unfold_ops :=
  unfold step, startOCR, isWebOcrReady, resume, continue, sendMessage,
    sendMessageRef_call, getRequestID, messageFunc, callback, timeoutFunc,
    init in *.

Ltac crush_ops :=
  unfold_ops; repeat (case_match; simplify_eq/=); try done.

Lemma init_again (st : State) (f : HTMLIFrameElement) :
  iframe st = Some f -> init st = (st, Settled VUndefined).
Proof. intros H. unfold init. now rewrite H. Qed.

Lemma step_frames (st : State) (ev : Event) :
  body st = option_list (iframe st) ->
  body (step st ev) = option_list (iframe (step st ev)).
Proof.
  intros H. destruct ev; crush_ops.
  all: rewrite H;
    try match goal with E : iframe _ = _ |- _ => rewrite E end; done.
Qed.

Lemma run_frames (tr : list Event) (st : State) :
  body st = option_list (iframe st) ->
  body (run tr st) = option_list (iframe (run tr st)).
Proof.
  revert st. induction tr as [| ev tr IH]; intros st H; [exact H |].
  apply IH, step_frames, H.
Qed.

(** C8: a call of [init] made while a frame exists returns without
    creating one, so however calls of [init] and [startOCR] are
    interleaved with the other events, the document never holds a second
    hidden frame; the first call creates the one frame. *)
Theorem init_creates_one_frame :
  (forall (st : State) (f : HTMLIFrameElement),
      iframe st = Some f -> init st = (st, Settled VUndefined))
  /\ (forall (page : string) (tr : list Event),
        (length (body (run tr (initial page))) <= 1)%nat)
  /\ (forall (page : string) (tr : list Event),
        body (run tr (run [CallInit; CallInit] (initial page)))
        = [{| iframe_src := page; iframe_id := ocrIframeId;
              iframe_display := "none" |}]).
Proof.
  split; [exact init_again | split].
  - intros page tr.
    rewrite (run_frames tr (initial page) eq_refl).
    destruct (iframe _); cbn; lia.
  - intros page tr.
    rewrite run_frames by reflexivity.
    assert (H : forall tr st f, iframe st = Some f -> iframe (run tr st) = Some f).
    { clear. induction tr as [| ev tr IH]; intros st f H; [exact H |].
      apply IH. destruct ev; crush_ops. }
    now rewrite (H tr (run [CallInit; CallInit] (initial page))
      {| iframe_src := page; iframe_id := ocrIframeId; iframe_display := "none" |}
      eq_refl).
Qed.

Lemma init_creates_one_frame_witness :
  iframe (run [CallInit] (initial "ocr.html"))
  = Some {| iframe_src := "ocr.html"; iframe_id := ocrIframeId;
            iframe_display := "none" |}
  /\ init (run [CallInit] (initial "ocr.html"))
     = (run [CallInit] (initial "ocr.html"), Settled VUndefined).
Proof.
  split; [reflexivity |].
  exact (proj1 init_creates_one_frame (run [CallInit] (initial "ocr.html"))
           {| iframe_src := "ocr.html"; iframe_id := ocrIframeId;
              iframe_display := "none" |} eq_refl).
Defined.

(** ** Requests and replies *)

Lemma increment_min (n : Z) :
  0 <= n -> increment (Z.min n (2 ^ 53)) = Z.min (n + 1) (2 ^ 53).
Proof. intros Hn. unfold increment. destruct (Z.ltb_spec (Z.min n (2 ^ 53)) (2 ^ 53)); lia. Qed.

Lemma Invariant_initial (page : string) : Invariant (initial page).
Proof.
  split; cbn; try done. constructor.
Qed.

Lemma Invariant_ext (st st' : State) :
  posted st' = posted st -> promises st' = promises st ->
  getRequestID_id st' = getRequestID_id st ->
  resolveCache st' = resolveCache st -> delivered st' = delivered st ->
  Invariant st -> Invariant st'.
Proof.
  intros H1 H2 H3 H4 H5 [I1 I2 I3 I4 I5 I6].
  split; rewrite ?H1, ?H2, ?H3, ?H4, ?H5; assumption.
Qed.

Lemma delivered_posted (st : State) (p : nat) (e : Envelope) :
  Invariant st -> In (p, e) (delivered st) -> (p < length (posted st))%nat.
Proof.
  intros I H. destruct (inv_delivered st I p e H) as (_ & _ & m & Hm & _).
  eapply lookup_lt_Some, Hm.
Qed.

Lemma Invariant_sendMessageRef_call action data (st : State) :
  Invariant st -> Invariant (fst (sendMessageRef_call action data st)).
Proof.
  intros I. pose proof I as [I1 I2 I3 I4 I5 I6].
  unfold sendMessageRef_call, getRequestID. cbn.
  split; cbn.
  - rewrite !length_app, I1. reflexivity.
  - rewrite length_app, I2. cbn. rewrite increment_min by lia. f_equal. lia.
  - intros i m [Hm | [Hi Hm]]%lookup_app_Some; [now apply I3 |].
    destruct (i - length (posted st))%nat as [| j] eqn:Hj; [| done].
    injection Hm as <-. cbn. rewrite I2, increment_min by lia. f_equal. lia.
  - intros r p. rewrite lookup_insert.
    destruct (decide (increment (getRequestID_id st) = r)) as [<- | Hne].
    + intros [= <-]. split; [| split].
      * rewrite lookup_app_r by done. now rewrite Nat.sub_diag.
      * rewrite <- I1. intros e He. apply (delivered_posted st _ _ I) in He. lia.
      * eexists. split.
        { rewrite <- I1, lookup_app_r by done. now rewrite Nat.sub_diag. }
        reflexivity.
    + intros Hr. destruct (I4 r p Hr) as (Hp & Hd & m & Hm & Hid).
      split; [| split; [exact Hd |]].
      * apply lookup_app_l_Some, Hp.
      * exists m. split; [| exact Hid]. apply lookup_app_l_Some, Hm.
  - intros p e He. destruct (I5 p e He) as (Hk & Hp & m & Hm & Hid).
    split; [exact Hk | split].
    + apply lookup_app_l_Some, Hp.
    + exists m. split; [| exact Hid]. apply lookup_app_l_Some, Hm.
  - exact I6.
Qed.

Lemma Invariant_sendMessage action data (st : State) :
  Invariant st -> Invariant (fst (sendMessage action data st)).
Proof.
  intros I. unfold sendMessage. destruct (negb (sendMessageRef st)); [exact I |].
  pose proof (Invariant_sendMessageRef_call action data st I) as H.
  destruct (sendMessageRef_call action data st). exact H.
Qed.

Lemma cache_injective (st : State) (r r' : Z) (p : nat) :
  Invariant st ->
  resolveCache st !! r = Some p -> resolveCache st !! r' = Some p -> r = r'.
Proof.
  intros I H H'.
  destruct (inv_cache st I r p H) as (_ & _ & m & Hm & <-).
  destruct (inv_cache st I r' p H') as (_ & _ & m' & Hm' & <-).
  congruence.
Qed.

(** The state after the callback stored under [r] has been called with
    [e] and its entry deleted. *)
Lemma Invariant_deliver (st : State) (e : Envelope) (r : Z) (p : nat) :
  Invariant st -> e_key e = Some key -> e_requestId e = Some r ->
  resolveCache st !! r = Some p ->
  Invariant (set_resolveCache (delete r (resolveCache st)) (callback p e st)).
Proof.
  intros I Hkey Hreq Hp. pose proof I as [I1 I2 I3 I4 I5 I6].
  destruct (I4 r p Hp) as (Hpend & Hnew & m & Hm & Hid).
  split; cbn.
  - now rewrite length_alter.
  - exact I2.
  - exact I3.
  - intros r' p' [Hne Hp']%lookup_delete_Some.
    destruct (I4 r' p' Hp') as (Hpend' & Hnew' & m' & Hm' & Hid').
    assert (p <> p') by (intros ->; apply Hne; congruence).
    split; [| split].
    + now rewrite list_lookup_alter_ne.
    + intros e' [He' | [He' | []]]%in_app_or; [exact (Hnew' e' He') | congruence].
    + eauto.
  - intros p' e' [He' | [He' | []]]%in_app_or.
    + destruct (I5 p' e' He') as (Hk & Hful & Hex).
      assert (p <> p') by (intros ->; exact (Hnew e' He')).
      split; [exact Hk | split; [| exact Hex]].
      now rewrite list_lookup_alter_ne.
    + injection He' as <- <-. split; [exact Hkey | split].
      * rewrite list_lookup_alter_eq, Hpend. reflexivity.
      * exists m. split; [exact Hm |]. now rewrite Hreq, Hid.
  - rewrite map_app. cbn. apply NoDup_app. split; [exact I6 | split].
    + intros p' Hin Hp'. apply list_elem_of_In in Hp' as [<- | []].
      apply list_elem_of_In, in_map_iff in Hin as ([q e'] & Hq & He').
      cbn in Hq. subst q.
      exact (Hnew e' He').
    + apply NoDup_singleton.
Qed.

Lemma Invariant_messageFunc (d : EventData) (st : State) :
  Invariant st -> Invariant (messageFunc d st).
Proof.
  intros I. unfold messageFunc. destruct d as [e |]; [| exact I].
  destruct (bool_decide (e_key e = Some key)) eqn:Hkey; cbn [negb]; [| exact I].
  apply bool_decide_eq_true in Hkey.
  assert (I' : Invariant
    match e_requestId e with
    | Some r =>
        match resolveCache st !! r with
        | Some p => set_resolveCache (delete r (resolveCache st)) (callback p e st)
        | None => st
        end
    | None => st
    end).
  { destruct (e_requestId e) as [r |] eqn:Hr; [| exact I].
    destruct (resolveCache st !! r) as [p |] eqn:Hp; [| exact I].
    now apply Invariant_deliver. }
  destruct (bool_decide (e_type e = Some "ocr-ready")); [| exact I'].
  eapply Invariant_ext; [.. | exact I']; reflexivity.
Qed.

Lemma Invariant_init (st : State) : Invariant st -> Invariant (fst (init st)).
Proof.
  intros I. unfold init. destruct (iframe st); [exact I |].
  destruct I as [I1 I2 I3 I4 I5 I6]. split; cbn; try assumption. done.
Qed.

Lemma Invariant_continue (k : Continuation) (v : Value) (st : State) :
  Invariant st -> Invariant (fst (continue k v st)).
Proof.
  intros I. destruct k as [type content | type content | |]; cbn [continue].
  - pose proof (Invariant_sendMessage "isWebOcrReady" None st I) as H.
    destruct (sendMessage "isWebOcrReady" None st). exact H.
  - destruct (negb (truthy v)).
    + eapply Invariant_ext; [.. | exact I]; reflexivity.
    + pose proof (Invariant_sendMessage "startOcr" (Some (type, content)) st I) as H.
      destruct (sendMessage "startOcr" (Some (type, content)) st). exact H.
  - exact I.
  - exact I.
Qed.

Lemma Invariant_step (st : State) (ev : Event) :
  Invariant st -> Invariant (step st ev).
Proof.
  intros I. destruct ev as [| type content | | d | | ms | k]; cbn [step].
  - now apply Invariant_init.
  - unfold startOCR. pose proof (Invariant_init st I) as H.
    destruct (init st). eapply Invariant_ext; [.. | exact H]; reflexivity.
  - unfold isWebOcrReady.
    pose proof (Invariant_sendMessage "isWebOcrReady" None st I) as H.
    destruct (sendMessage "isWebOcrReady" None st).
    eapply Invariant_ext; [.. | exact H]; reflexivity.
  - destruct (listening st); [now apply Invariant_messageFunc | exact I].
  - destruct (timer st) as [due |]; [| exact I].
    destruct (due <=? clock st); [| exact I].
    eapply Invariant_ext; [.. | exact I]; reflexivity.
  - eapply Invariant_ext; [.. | exact I]; reflexivity.
  - unfold resume. destruct (calls st !! k) as [[a cont | v] |]; try exact I.
    destruct (awaited a st) as [v |]; [| exact I].
    pose proof (Invariant_continue cont v st I) as H.
    destruct (continue cont v st). eapply Invariant_ext; [.. | exact H]; reflexivity.
Qed.

Lemma Invariant_run (tr : list Event) (st : State) :
  Invariant st -> Invariant (run tr st).
Proof.
  revert st. induction tr as [| ev tr IH]; intros st I; [exact I |].
  apply IH, Invariant_step, I.
Qed.

Lemma step_posted_length (st : State) (ev : Event) :
  (length (posted (step st ev)) <= S (length (posted st)))%nat.
Proof. destruct ev; crush_ops; rewrite ?length_app; cbn; lia. Qed.

Lemma run_posted_length (tr : list Event) (st : State) :
  (length (posted (run tr st)) <= length tr + length (posted st))%nat.
Proof.
  revert st. induction tr as [| ev tr IH]; intros st; cbn [run fold_left length].
  - lia.
  - specialize (IH (step st ev)). pose proof (step_posted_length st ev).
    unfold run in IH. lia.
Qed.

Lemma posted_ids (page : string) (tr : list Event) (i : nat) (m : PostedMessage) :
  Z.of_nat (length tr) < 2 ^ 53 ->
  posted (run tr (initial page)) !! i = Some m ->
  m_requestId m = Z.of_nat i + 1.
Proof.
  intros Hlen Hm.
  pose proof (Invariant_run tr _ (Invariant_initial page)) as I.
  rewrite (inv_posted _ I i m Hm).
  apply lookup_lt_Some in Hm.
  pose proof (run_posted_length tr (initial page)). cbn [initial posted length] in *.
  lia.
Qed.

Lemma consecutive_sorted {A} (f : A -> Z) (l : list A) (k : Z) :
  (forall i a, l !! i = Some a -> f a = k + Z.of_nat i) ->
  StronglySorted Z.lt (map f l).
Proof.
  revert k. induction l as [| a l IH]; intros k H; cbn [map]; constructor.
  - apply (IH (k + 1)). intros i b Hb.
    rewrite (H (S i) b Hb). lia.
  - rewrite List.Forall_forall. intros z (b & <- & Hb)%in_map_iff.
    apply list_elem_of_In, list_elem_of_lookup in Hb as [i Hi].
    rewrite (H 0%nat a eq_refl), (H (S i) b Hi). lia.
Qed.

Lemma sorted_NoDup (l : list Z) : StronglySorted Z.lt l -> NoDup l.
Proof.
  induction 1 as [| a l Hs IH Ha]; constructor; [| exact IH].
  intros Hin%list_elem_of_In. rewrite List.Forall_forall in Ha.
  specialize (Ha a Hin). lia.
Qed.

(** C9: in a run of fewer than 2^53 events from the initial page (so
    that the counter, a double, stays where its increment is exact) the
    request ids taken by [sendMessageRef] are strictly increasing in the
    order they are taken, hence distinct; the id the next request will
    take has no entry in [resolveCache], so no pending entry is ever
    replaced, and each pending entry is that of one request, still
    pending, with that id. *)
Theorem request_ids_strictly_increasing (page : string) (tr : list Event) :
  Z.of_nat (length tr) < 2 ^ 53 ->
  StronglySorted Z.lt (map m_requestId (posted (run tr (initial page))))
  /\ NoDup (map m_requestId (posted (run tr (initial page))))
  /\ resolveCache (run tr (initial page))
       !! increment (getRequestID_id (run tr (initial page))) = None
  /\ (forall r p, resolveCache (run tr (initial page)) !! r = Some p ->
        promises (run tr (initial page)) !! p = Some Pending /\
        exists m, posted (run tr (initial page)) !! p = Some m
                  /\ m_requestId m = r)
  /\ (forall r r' p, resolveCache (run tr (initial page)) !! r = Some p ->
        resolveCache (run tr (initial page)) !! r' = Some p -> r = r').
Proof.
  intros Hlen.
  pose proof (Invariant_run tr _ (Invariant_initial page)) as I.
  assert (Hsorted : StronglySorted Z.lt
            (map m_requestId (posted (run tr (initial page))))).
  { apply (consecutive_sorted _ _ 1). intros i m Hm.
    rewrite (posted_ids page tr i m Hlen Hm). lia. }
  split; [exact Hsorted | split; [exact (sorted_NoDup _ Hsorted) | split; [| split]]].
  - destruct (resolveCache _ !! _) as [p |] eqn:Hp; [| reflexivity].
    destruct (inv_cache _ I _ p Hp) as (_ & _ & m & Hm & Hid).
    rewrite (posted_ids page tr p m Hlen Hm), (inv_id _ I) in Hid.
    apply lookup_lt_Some in Hm.
    pose proof (run_posted_length tr (initial page)).
    cbn [initial posted length] in *.
    rewrite increment_min in Hid by lia. lia.
  - intros r p Hp. destruct (inv_cache _ I r p Hp) as (Hpend & _ & Hm).
    split; assumption.
  - intros r r' p. now apply cache_injective.
Qed.

Lemma request_ids_strictly_increasing_witness :
  Z.of_nat (length [CallInit; Message (EventObject ready_envelope);
                    CallIsWebOcrReady; CallIsWebOcrReady; CallIsWebOcrReady])
  < 2 ^ 53
  /\ map m_requestId
       (posted (run [CallInit; Message (EventObject ready_envelope);
                     CallIsWebOcrReady; CallIsWebOcrReady; CallIsWebOcrReady]
                  (initial "ocr.html"))) = [1; 2; 3]
  /\ StronglySorted Z.lt
       (map m_requestId
          (posted (run [CallInit; Message (EventObject ready_envelope);
                        CallIsWebOcrReady; CallIsWebOcrReady; CallIsWebOcrReady]
                     (initial "ocr.html")))).
Proof.
  assert (H : Z.of_nat (length [CallInit; Message (EventObject ready_envelope);
                    CallIsWebOcrReady; CallIsWebOcrReady; CallIsWebOcrReady])
              < 2 ^ 53) by (vm_compute; reflexivity).
  split; [exact H | split; [vm_compute; reflexivity |]].
  exact (proj1 (request_ids_strictly_increasing "ocr.html" _ H)).
Defined.

(** What [messageFunc] does with an accepted reply whose request id has
    an entry in [resolveCache]. *)
Lemma messageFunc_delivers (st : State) (e : Envelope) (r : Z) (p : nat) :
  e_key e = Some key -> e_requestId e = Some r ->
  resolveCache st !! r = Some p ->
  delivered (messageFunc (EventObject e) st) = delivered st ++ [(p, e)]
  /\ resolveCache (messageFunc (EventObject e) st) = delete r (resolveCache st)
  /\ promises (messageFunc (EventObject e) st)
     = alter (resolve e) p (promises st).
Proof.
  intros Hkey Hreq Hp. unfold messageFunc.
  rewrite bool_decide_eq_true_2, Hreq, Hp by exact Hkey. cbn [negb].
  destruct (bool_decide (e_type e = Some "ocr-ready")); cbn; auto.
Qed.

(** ... and with one whose request id has none, or that is not accepted. *)
Lemma messageFunc_ignores (st : State) (d : EventData) :
  match d with
  | EventObject e =>
      e_key e <> Some key \/
      match e_requestId e with
      | Some r => resolveCache st !! r = None
      | None => True
      end
  | EventNullish => True
  end ->
  delivered (messageFunc d st) = delivered st
  /\ resolveCache (messageFunc d st) = resolveCache st
  /\ promises (messageFunc d st) = promises st.
Proof.
  destruct d as [e |]; [| auto]. unfold messageFunc. intros [Hkey | Hreq].
  - rewrite bool_decide_eq_false_2 by exact Hkey. auto.
  - destruct (bool_decide (e_key e = Some key)); cbn [negb]; [| auto].
    destruct (e_requestId e) as [r |]; [rewrite Hreq |];
      destruct (bool_decide (e_type e = Some "ocr-ready")); cbn; auto.
Qed.

(** C1: in every run from the initial page, whatever the order in which
    requests are sent and replies arrive, a callback of [resolveCache] is
    only ever called with an accepted envelope whose [requestId] is the id
    of the request the callback was stored for, and no callback is called
    twice; an accepted envelope whose [requestId] has an entry goes to the
    callback of that entry and to no other (it fulfils that request's
    promise, which was pending, and leaves every other promise as it was),
    and the entry is deleted; an envelope that is not accepted, or whose
    [requestId] has no entry, reaches no callback.  In a run of fewer
    than 2^53 events no two calls of callbacks are for the same request
    id. *)
Theorem replies_reach_their_requests (page : string) (tr : list Event) :
  (forall p e, In (p, e) (delivered (run tr (initial page))) ->
     e_key e = Some key /\
     exists m, posted (run tr (initial page)) !! p = Some m
               /\ e_requestId e = Some (m_requestId m))
  /\ NoDup (map fst (delivered (run tr (initial page))))
  /\ (forall e r p,
        e_key e = Some key -> e_requestId e = Some r ->
        resolveCache (run tr (initial page)) !! r = Some p ->
        (exists m, posted (run tr (initial page)) !! p = Some m
                   /\ m_requestId m = r)
        /\ promises (run tr (initial page)) !! p = Some Pending
        /\ delivered (messageFunc (EventObject e) (run tr (initial page)))
           = delivered (run tr (initial page)) ++ [(p, e)]
        /\ promises (messageFunc (EventObject e) (run tr (initial page))) !! p
           = Some (Fulfilled e)
        /\ (forall q, q <> p ->
              promises (messageFunc (EventObject e) (run tr (initial page))) !! q
              = promises (run tr (initial page)) !! q)
        /\ resolveCache (messageFunc (EventObject e) (run tr (initial page)))
           = delete r (resolveCache (run tr (initial page))))
  /\ (forall e,
        e_key e <> Some key \/
        match e_requestId e with
        | Some r => resolveCache (run tr (initial page)) !! r = None
        | None => True
        end ->
        delivered (messageFunc (EventObject e) (run tr (initial page)))
        = delivered (run tr (initial page))
        /\ promises (messageFunc (EventObject e) (run tr (initial page)))
           = promises (run tr (initial page)))
  /\ (Z.of_nat (length tr) < 2 ^ 53 ->
      NoDup (map (fun d => e_requestId (snd d))
               (delivered (run tr (initial page))))).
Proof.
  pose proof (Invariant_run tr _ (Invariant_initial page)) as I.
  set (st := run tr (initial page)) in *.
  split; [| split; [| split; [| split]]].
  - intros p e He. destruct (inv_delivered st I p e He) as (Hk & _ & Hm).
    split; assumption.
  - exact (inv_once st I).
  - intros e r p Hkey Hreq Hp.
    destruct (inv_cache st I r p Hp) as (Hpend & _ & Hm).
    destruct (messageFunc_delivers st e r p Hkey Hreq Hp) as (Hd & Hc & Hpr).
    rewrite Hd, Hc, Hpr.
    repeat split; try assumption.
    + now rewrite list_lookup_alter_eq, Hpend.
    + intros q Hq. now rewrite list_lookup_alter_ne.
  - intros e He.
    destruct (messageFunc_ignores st (EventObject e) He) as (Hd & _ & Hpr).
    split; assumption.
  - intros Hlen.
    assert (Hid : forall p e, In (p, e) (delivered st) ->
                    e_requestId e = Some (Z.of_nat p + 1)).
    { intros p e He. destruct (inv_delivered st I p e He) as (_ & _ & m & Hm & ->).
      f_equal. exact (posted_ids page tr p m Hlen Hm). }
    pose proof (inv_once st I) as Hnd. revert Hid Hnd.
    generalize (delivered st) as l.
    induction l as [| [p e] l IH]; intros Hid Hnd; cbn [map]; constructor.
    + intros Hin%list_elem_of_In%in_map_iff. destruct Hin as ([q e'] & Heq & Hq).
      cbn [snd fst] in *. rewrite (Hid p e), (Hid q e') in Heq by (cbn; auto).
      injection Heq as Heq.
      apply NoDup_cons in Hnd as [Hnot _]. apply Hnot, list_elem_of_In.
      apply in_map_iff. exists (q, e'). split; [cbn; lia | exact Hq].
    + apply IH; [| now apply NoDup_cons in Hnd as [_ ?]].
      intros q e' Hq. apply Hid. now right.
Qed.

Lemma replies_reach_their_requests_witness :
  e_key (reply 2 DataFalsy) = Some key
  /\ e_requestId (reply 2 DataFalsy) = Some 2
  /\ resolveCache
       (run [CallInit; Message (EventObject ready_envelope);
             CallIsWebOcrReady; CallIsWebOcrReady] (initial "ocr.html")) !! 2
     = Some 1%nat
  /\ delivered
       (messageFunc (EventObject (reply 2 DataFalsy))
          (run [CallInit; Message (EventObject ready_envelope);
                CallIsWebOcrReady; CallIsWebOcrReady] (initial "ocr.html")))
     = delivered
         (run [CallInit; Message (EventObject ready_envelope);
               CallIsWebOcrReady; CallIsWebOcrReady] (initial "ocr.html"))
       ++ [(1%nat, reply 2 DataFalsy)].
Proof.
  assert (H : resolveCache
       (run [CallInit; Message (EventObject ready_envelope);
             CallIsWebOcrReady; CallIsWebOcrReady] (initial "ocr.html")) !! 2
     = Some 1%nat) by (vm_compute; reflexivity).
  split; [reflexivity | split; [reflexivity | split; [exact H |]]].
  pose proof (replies_reach_their_requests "ocr.html"
                [CallInit; Message (EventObject ready_envelope);
                 CallIsWebOcrReady; CallIsWebOcrReady]) as T.
  exact (proj1 (proj2 (proj2 (proj1 (proj2 (proj2 T)) (reply 2 DataFalsy) 2 1%nat
                 eq_refl eq_refl H)))).
Defined.

(** ** The promise of [init] *)

Ltac fields :=
  cbn [fst snd clock ocrProxyPage body iframe sendMessageRef getRequestID_id
       resolveCache listening timer initPromise promises posted delivered
       calls console set_clock set_body set_iframe set_sendMessageRef
       set_getRequestID_id set_resolveCache set_listening set_timer
       set_initPromise set_promises set_posted set_delivered set_calls
       set_console].

Lemma same_manager_refl (st : State) : same_manager st st.
Proof. unfold same_manager. tauto. Qed.

Lemma sendMessage_same_manager action data (st : State) :
  same_manager st (fst (sendMessage action data st)).
Proof.
  unfold sendMessage. destruct (negb (sendMessageRef st)).
  - apply same_manager_refl.
  - unfold same_manager, sendMessageRef_call, getRequestID. fields. tauto.
Qed.

Lemma continue_same_manager (k : Continuation) (v : Value) (st : State) :
  same_manager st (fst (continue k v st)).
Proof.
  destruct k as [type content | type content | |]; cbn [continue].
  - pose proof (sendMessage_same_manager "isWebOcrReady" None st) as H.
    destruct (sendMessage "isWebOcrReady" None st). exact H.
  - destruct (negb (truthy v)).
    + unfold same_manager. fields. tauto.
    + pose proof (sendMessage_same_manager "startOcr" (Some (type, content)) st) as H.
      destruct (sendMessage "startOcr" (Some (type, content)) st). exact H.
  - apply same_manager_refl.
  - apply same_manager_refl.
Qed.

Lemma resume_same_manager (k : nat) (st : State) :
  same_manager st (resume k st).
Proof.
  unfold resume. destruct (calls st !! k) as [[a cont | v] |];
    try (unfold same_manager; tauto).
  destruct (awaited a st) as [v |]; [| unfold same_manager; tauto].
  pose proof (continue_same_manager cont v st) as H.
  destruct (continue cont v st). unfold same_manager in *. fields. exact H.
Qed.

(** Apart from a message, the timeout and the passing of time, an event
    in a page that has its frame changes none of these. *)
Lemma step_same_manager (st : State) (ev : Event) :
  iframe st <> None ->
  match ev with
  | Message _ | TimerFires | Elapse _ => True
  | _ => same_manager st (step st ev)
  end.
Proof.
  intros Hf. destruct (iframe st) as [f |] eqn:Hi; [| done].
  destruct ev as [| type content | | d | | ms | k]; cbn [step]; try exact I.
  - rewrite (init_again st f Hi). apply same_manager_refl.
  - unfold startOCR. rewrite (init_again st f Hi). unfold same_manager. fields.
    tauto.
  - unfold isWebOcrReady.
    pose proof (sendMessage_same_manager "isWebOcrReady" None st) as H.
    destruct (sendMessage "isWebOcrReady" None st).
    unfold same_manager in *. fields. exact H.
  - apply resume_same_manager.
Qed.

Lemma settlement_cons (now due : Z) (ev : Event) (tr : list Event) :
  settlement now due (ev :: tr)
  = match settlement now due [ev] with
    | Fulfilled b => Fulfilled b
    | Pending => settlement (clock_after now ev) due tr
    end.
Proof. destruct ev; cbn; repeat case_match; reflexivity. Qed.

Lemma step_settled (b : bool) (st : State) (ev : Event) :
  settled b st -> settled b (step st ev).
Proof.
  intros [Hf Hp]. unfold settled.
  pose proof (step_same_manager st ev Hf) as Hsame.
  destruct ev as [| type content | | d | | ms | k];
    try (destruct Hsame as (-> & _ & -> & _); tauto).
  - cbn [step]. destruct (listening st); [| tauto]. unfold messageFunc.
    destruct d as [e |]; [| tauto].
    destruct (negb (bool_decide (e_key e = Some key))); [tauto |].
    destruct (bool_decide (e_type e = Some "ocr-ready"));
      destruct (e_requestId e) as [r |]; try destruct (resolveCache st !! r);
      unfold callback; fields; rewrite ?Hp; cbn [fmap option_fmap option_map resolve];
      tauto.
  - cbn [step]. unfold timeoutFunc. destruct (timer st) as [due |]; [| tauto].
    destruct (due <=? clock st); fields; rewrite ?Hp;
      cbn [fmap option_fmap option_map resolve]; tauto.
  - cbn [step]. fields. tauto.
Qed.

Lemma run_settled (b : bool) (tr : list Event) (st : State) :
  settled b st -> settled b (run tr st).
Proof.
  revert st. induction tr as [| ev tr IH]; intros st H; [exact H |].
  apply IH, step_settled, H.
Qed.

Lemma step_waiting (due : Z) (st : State) (ev : Event) :
  waiting due st ->
  match settlement (clock st) due [ev] with
  | Fulfilled b => settled b (step st ev)
  | Pending =>
      waiting due (step st ev) /\ clock (step st ev) = clock_after (clock st) ev
  end.
Proof.
  intros (Hf & Hl & Hp & Ht). unfold waiting, settled.
  pose proof (step_same_manager st ev Hf) as Hsame.
  destruct ev as [| type content | | d | | ms | k]; cbn [settlement clock_after];
    try (destruct Hsame as (-> & -> & -> & -> & -> & _); tauto).
  - cbn [step]. rewrite Hl. unfold signals_ready, messageFunc.
    destruct d as [e |]; [| tauto].
    destruct (bool_decide (e_key e = Some key)); cbn [negb andb]; [| tauto].
    destruct (bool_decide (e_type e = Some "ocr-ready"));
      destruct (e_requestId e) as [r |]; try destruct (resolveCache st !! r);
      unfold callback; fields; rewrite ?Hp; cbn [fmap option_fmap option_map resolve];
      tauto.
  - cbn [step]. rewrite Ht. unfold timeoutFunc.
    destruct (due <=? clock st); fields; rewrite ?Hp;
      cbn [fmap option_fmap option_map resolve]; tauto.
  - cbn [step]. fields. tauto.
Qed.

Lemma waiting_run (due : Z) (tr : list Event) (st : State) :
  waiting due st ->
  initPromise (run tr st) = Some (settlement (clock st) due tr).
Proof.
  revert st. induction tr as [| ev tr IH]; intros st H.
  - apply H.
  - rewrite settlement_cons. pose proof (step_waiting due st ev H) as Hs.
    cbn [run fold_left].
    destruct (settlement (clock st) due [ev]) as [| b].
    + destruct Hs as [Hw <-]. now apply IH.
    + now apply (run_settled b tr).
Qed.

Lemma settlement_app (now due : Z) (tr tr' : list Event) (b : bool) :
  settlement now due tr = Fulfilled b ->
  settlement now due (tr ++ tr') = Fulfilled b.
Proof.
  revert now. induction tr as [| ev tr IH]; intros now; [discriminate |].
  cbn [app].
  rewrite (settlement_cons now due ev tr), (settlement_cons now due ev (tr ++ tr')).
  destruct (settlement now due [ev]); [apply IH | auto].
Qed.

Lemma init_first (st : State) :
  iframe st = None ->
  snd (init st) = InitPromise /\ waiting (clock st + 30000) (fst (init st))
  /\ clock (fst (init st)) = clock st.
Proof.
  intros H. unfold init, waiting. rewrite H. fields. repeat split; done.
Qed.

(** C2, as the code has it: the first call of [init] (the one made while
    there is no frame) returns a promise, pending at first, with the
    timeout set 30 seconds ahead; along every sequence of events that
    follows, the promise is settled by the first of: an accepted envelope
    (key "ocr-message") of type "ocr-ready", which resolves it to [true],
    and the timeout firing, no earlier than 30 seconds after the call,
    which resolves it to [false]; once settled it keeps its value. *)
Theorem init_promise_settles_once (st : State) :
  iframe st = None ->
  snd (init st) = InitPromise
  /\ initPromise (fst (init st)) = Some Pending
  /\ timer (fst (init st)) = Some (clock st + 30000)
  /\ (forall tr,
        initPromise (run tr (fst (init st)))
        = Some (settlement (clock st) (clock st + 30000) tr))
  /\ (forall tr tr' b,
        initPromise (run tr (fst (init st))) = Some (Fulfilled b) ->
        initPromise (run (tr ++ tr') (fst (init st))) = Some (Fulfilled b)).
Proof.
  intros H. destruct (init_first st H) as (Hret & Hw & Hclock).
  assert (Hrun : forall tr,
            initPromise (run tr (fst (init st)))
            = Some (settlement (clock st) (clock st + 30000) tr)).
  { intros tr. rewrite (waiting_run _ tr _ Hw), Hclock. reflexivity. }
  split; [exact Hret | split; [apply Hw | split; [apply Hw | split]]].
  - exact Hrun.
  - intros tr tr' b. rewrite !Hrun. intros [= Hb].
    now rewrite (settlement_app _ _ tr tr' b Hb).
Qed.

Lemma init_promise_settles_once_witness :
  iframe (initial "ocr.html") = None
  /\ initPromise
       (run [Elapse 1200; Message (EventObject ready_envelope); Elapse 30000;
             TimerFires] (fst (init (initial "ocr.html"))))
     = Some (Fulfilled true)
  /\ initPromise
       (run [Elapse 1200; Message (EventObject (reply 1 DataFalsy));
             Elapse 30000; TimerFires; Message (EventObject ready_envelope)]
          (fst (init (initial "ocr.html"))))
     = Some (Fulfilled false).
Proof.
  pose proof (init_promise_settles_once (initial "ocr.html") eq_refl)
    as (_ & _ & _ & H & _).
  split; [reflexivity | split]; rewrite H; reflexivity.
Defined.

(** C2, as stated, fails: an accepted envelope of type "ready" does not
    settle the promise; it stays pending, and the timeout then resolves it
    to [false]. *)
Lemma init_ignores_type_ready :
  initPromise
    (run [Message (EventObject type_ready_envelope)]
       (fst (init (initial "ocr.html"))))
  = Some Pending
  /\ initPromise
       (run [Message (EventObject type_ready_envelope); Elapse 30000; TimerFires]
          (fst (init (initial "ocr.html"))))
     = Some (Fulfilled false).
Proof. split; vm_compute; reflexivity. Qed.

(** ** Requests without the transport *)

Lemma sendMessage_undefined action data (st : State) :
  sendMessageRef st = false ->
  sendMessage action data st = (st, Settled VUndefined).
Proof. intros H. unfold sendMessage. now rewrite H. Qed.

Lemma step_sendMessageRef (st : State) (ev : Event) :
  match ev with
  | Message d => signals_ready d = false
  | _ => True
  end ->
  sendMessageRef (step st ev) = sendMessageRef st.
Proof.
  destruct ev as [| type content | | d | | ms | k]; cbn [step]; intros Hev.
  - unfold init. destruct (iframe st); reflexivity.
  - unfold startOCR, init. destruct (iframe st); reflexivity.
  - unfold isWebOcrReady.
    pose proof (sendMessage_same_manager "isWebOcrReady" None st) as H.
    destruct (sendMessage "isWebOcrReady" None st). fields. apply H.
  - destruct (listening st); [| reflexivity]. unfold messageFunc, signals_ready in *.
    destruct d as [e |]; [| reflexivity].
    destruct (bool_decide (e_key e = Some key)); cbn [negb andb] in *;
      [| reflexivity].
    rewrite Hev.
    destruct (e_requestId e) as [r |]; try destruct (resolveCache st !! r);
      reflexivity.
  - destruct (timer st) as [due |]; [| reflexivity].
    destruct (due <=? clock st); reflexivity.
  - reflexivity.
  - apply resume_same_manager.
Qed.

Lemma run_sendMessageRef (tr : list Event) (st : State) :
  (forall d, In (Message d) tr -> signals_ready d = false) ->
  sendMessageRef (run tr st) = sendMessageRef st.
Proof.
  revert st. induction tr as [| ev tr IH]; intros st H; [reflexivity |].
  cbn [run fold_left]. unfold run in IH. rewrite IH.
  - apply step_sendMessageRef. destruct ev; try exact I. apply H. now left.
  - intros d Hd. apply H. now right.
Qed.

(** C5, as the code has it: a request made while [sendMessageRef] is not
    assigned yields [undefined] and changes nothing; nothing is thrown.
    In particular, when the timeout fires before a readiness signal, the
    promise of [init] resolves to [false], and as long as no readiness
    signal has arrived, a late one included, every request yields
    [undefined]. *)
Theorem request_without_transport :
  (forall (st : State) action data,
      sendMessageRef st = false ->
      sendMessage action data st = (st, Settled VUndefined))
  /\ (forall (st : State) (tr : list Event),
        iframe st = None -> sendMessageRef st = false ->
        settlement (clock st) (clock st + 30000) tr = Fulfilled false ->
        (forall d, In (Message d) tr -> signals_ready d = false) ->
        initPromise (run tr (fst (init st))) = Some (Fulfilled false)
        /\ forall action data,
             sendMessage action data (run tr (fst (init st)))
             = (run tr (fst (init st)), Settled VUndefined)).
Proof.
  split; [intros st action data; apply sendMessage_undefined |].
  intros st tr Hf Href Hset Hno.
  destruct (init_first st Hf) as (_ & Hw & Hclock). split.
  - rewrite (waiting_run _ tr _ Hw), Hclock. now rewrite Hset.
  - intros action data. apply sendMessage_undefined.
    rewrite (run_sendMessageRef tr _ Hno).
    unfold init. rewrite Hf. exact Href.
Qed.

Lemma request_without_transport_witness :
  sendMessageRef
    (run [Elapse 30000; TimerFires] (fst (init (initial "ocr.html")))) = false
  /\ sendMessage "isWebOcrReady" None
       (run [Elapse 30000; TimerFires] (fst (init (initial "ocr.html"))))
     = (run [Elapse 30000; TimerFires] (fst (init (initial "ocr.html"))),
        Settled VUndefined).
Proof.
  split; [reflexivity |].
  exact (proj1 request_without_transport
           (run [Elapse 30000; TimerFires] (fst (init (initial "ocr.html"))))
           "isWebOcrReady" None eq_refl).
Defined.

(** C5, as stated, fails: no readiness signal arrives within 30 seconds
    and the promise of [init] resolves to [false]; a readiness signal that
    arrives later still assigns [sendMessageRef], and a request made after
    it posts a message and returns a promise, not [undefined]. *)
Lemma late_ready_installs_transport :
  initPromise
    (run [Elapse 30000; TimerFires; Message (EventObject ready_envelope)]
       (fst (init (initial "ocr.html"))))
  = Some (Fulfilled false)
  /\ snd (sendMessage "isWebOcrReady" None
            (run [Elapse 30000; TimerFires; Message (EventObject ready_envelope)]
               (fst (init (initial "ocr.html")))))
     = RequestPromise 0
  /\ map m_action
       (posted
          (fst (sendMessage "isWebOcrReady" None
                  (run [Elapse 30000; TimerFires;
                        Message (EventObject ready_envelope)]
                     (fst (init (initial "ocr.html")))))))
     = ["isWebOcrReady"].
Proof. repeat split; vm_compute; reflexivity. Qed.

(** ** The readiness check of [startOCR] *)

(** C6: when the readiness check of a [startOCR] call comes back falsy,
    the call returns the empty array, and it sends nothing: no message is
    posted, no promise made, no id taken and no callback stored. *)
Theorem startOCR_not_ready (st : State) (k : nat) (type : OcrType)
  (content : Content) (a : Awaitable) (isReady : Value) :
  calls st !! k = Some (Suspended a (startOCR_80 type content)) ->
  awaited a st = Some isReady ->
  truthy isReady = false ->
  calls (step st (Resume k)) !! k = Some (Returned (VArray []))
  /\ posted (step st (Resume k)) = posted st
  /\ promises (step st (Resume k)) = promises st
  /\ resolveCache (step st (Resume k)) = resolveCache st
  /\ getRequestID_id (step st (Resume k)) = getRequestID_id st.
Proof.
  intros Hk Ha Hv. cbn [step]. unfold resume. rewrite Hk, Ha.
  cbn [continue]. rewrite Hv. cbn [negb]. fields.
  repeat split. apply list_lookup_insert_eq. eapply lookup_lt_Some, Hk.
Qed.

Lemma startOCR_not_ready_witness :
  calls (run [CallStartOCR url (ContentString "a.png"); Elapse 30000;
              TimerFires; Resume 0] (initial "ocr.html")) !! 0%nat
  = Some (Suspended (Settled VUndefined)
            (startOCR_80 url (ContentString "a.png")))
  /\ calls (step (run [CallStartOCR url (ContentString "a.png"); Elapse 30000;
                       TimerFires; Resume 0] (initial "ocr.html")) (Resume 0))
       !! 0%nat
     = Some (Returned (VArray []))
  /\ posted (step (run [CallStartOCR url (ContentString "a.png"); Elapse 30000;
                        TimerFires; Resume 0] (initial "ocr.html")) (Resume 0))
     = posted (run [CallStartOCR url (ContentString "a.png"); Elapse 30000;
                    TimerFires; Resume 0] (initial "ocr.html")).
Proof.
  assert (H : calls (run [CallStartOCR url (ContentString "a.png"); Elapse 30000;
              TimerFires; Resume 0] (initial "ocr.html")) !! 0%nat
            = Some (Suspended (Settled VUndefined)
                      (startOCR_80 url (ContentString "a.png"))))
    by (vm_compute; reflexivity).
  split; [exact H |].
  pose proof (startOCR_not_ready
                (run [CallStartOCR url (ContentString "a.png"); Elapse 30000;
                      TimerFires; Resume 0] (initial "ocr.html"))
                0%nat url (ContentString "a.png")
                (Settled VUndefined) VUndefined H eq_refl eq_refl)
    as (H1 & H2 & _).
  split; [exact H1 | exact H2].
Defined.

(** ** The handle of the editor wrapper *)

(** C10: while there is no editor, [getContent] returns the empty string,
    [isEmpty] returns [true], and [appendContent] and [setContent] return
    having called neither the editor nor the frame. *)
Theorem handle_before_editor (frame : bool) (html type : string)
  (breakLine : bool) :
  getContent {| editor := None; iframeRef_current := frame |} type = ("", [])
  /\ isEmpty {| editor := None; iframeRef_current := frame |} = (true, [])
  /\ appendContent {| editor := None; iframeRef_current := frame |} html breakLine
     = []
  /\ setContent {| editor := None; iframeRef_current := frame |} html = [].
Proof. repeat split. Qed.

(** ** More on the result of [startOCR] *)

Lemma compareFn_region (a b : IOcrResultItem) :
  compareFn (ItemRegion a) (ItemRegion b)
  = Normal (if strict_ne (y a) (y b) then minus (y a) (y b)
            else minus (x a) (x b)).
Proof. unfold compareFn. cbn. destruct (strict_ne (y a) (y b)); reflexivity. Qed.

Lemma sort_insert_regions (a : IOcrResultItem) (l : list IOcrResultItem) :
  exists out,
    sort_insert compareFn (ItemRegion a) (map ItemRegion l)
    = Normal (map ItemRegion out).
Proof.
  induction l as [| b l [out IH]]; [exists [a]; reflexivity |].
  cbn [map sort_insert]. rewrite compareFn_region. cbn.
  destruct (SortCompare _).
  - exists (a :: b :: l). reflexivity.
  - exists (a :: b :: l). reflexivity.
  - rewrite IH. exists (b :: out). reflexivity.
Qed.

Lemma Array_sort_regions (l : list IOcrResultItem) :
  exists out, Array_sort compareFn (map ItemRegion l) = Normal (map ItemRegion out).
Proof.
  induction l as [| a l [out IH]]; [exists []; reflexivity |].
  cbn [map Array_sort]. rewrite IH. cbn. apply sort_insert_regions.
Qed.

Lemma items_nullish_or_regions (items : list Item) :
  In ItemNullish items \/ exists rs, items = map ItemRegion rs.
Proof.
  induction items as [| i items [IH | [rs ->]]].
  - right. exists []. reflexivity.
  - left. now right.
  - destruct i as [r |]; [| left; now left].
    right. exists (r :: rs). reflexivity.
Qed.

Lemma Array_filter_nullish (items : list Item) :
  In ItemNullish items -> Array_filter filterFn items = Throw TypeError.
Proof.
  induction items as [| i items IH]; [intros [] |].
  intros [-> | Hin]; [reflexivity |].
  cbn [Array_filter]. rewrite (IH Hin).
  destruct i as [r |]; [| reflexivity].
  rewrite filterFn_region. reflexivity.
Qed.

Lemma map_ItemRegion_inj (l l' : list IOcrResultItem) :
  map ItemRegion l = map ItemRegion l' -> l = l'.
Proof.
  revert l'. induction l as [| a l IH]; intros [| b l']; cbn; try discriminate.
  - reflexivity.
  - intros [= -> H]. f_equal. now apply IH.
Qed.

Lemma normalize_region_list (rs : list IOcrResultItem) :
  exists out,
    normalize (DataArray (map ItemRegion rs)) = VArray (map ItemRegion out)
    /\ Permutation (List.filter retained rs) out.
Proof.
  destruct (Array_sort_regions (List.filter retained rs)) as [out Hout].
  exists out. unfold normalize, postProcess. cbn [or_empty].
  rewrite Array_filter_regions. cbn. rewrite Hout. split; [reflexivity |].
  apply Array_sort_Permutation in Hout.
  symmetry in Hout. apply Permutation_map_inv in Hout as (l3 & Heq & Hperm).
  apply map_ItemRegion_inj in Heq as ->. exact Hperm.
Qed.

Lemma normalize_undefined_iff (data : Data) :
  normalize data = VUndefined <->
  data = DataOther \/
  exists items, data = DataArray items /\ In ItemNullish items.
Proof.
  split.
  - destruct data as [| items |]; [discriminate | | auto].
    intros H. right. exists items. split; [reflexivity |].
    destruct (items_nullish_or_regions items) as [Hin | [rs ->]]; [exact Hin |].
    destruct (normalize_region_list rs) as (out & Hout & _). congruence.
  - intros [-> | (items & -> & Hin)]; [reflexivity |].
    unfold normalize, postProcess. cbn [or_empty].
    now rewrite (Array_filter_nullish items Hin).
Qed.



(** When [startOCR] returns an array, the reply held only regions, and
    the array holds exactly those of them with neither coordinate NaN,
    each as often as the reply did: nothing is added, dropped or
    repeated. *)
Theorem startOCR_returns_kept_regions (items result : list Item) :
  normalize (DataArray items) = VArray result ->
  exists rs,
    items = map ItemRegion rs
    /\ Permutation (map ItemRegion (List.filter retained rs)) result
    /\ (length result <= length items)%nat.
Proof.
  intros H.
  destruct (items_nullish_or_regions items) as [Hin | [rs ->]].
  - assert (Hu : normalize (DataArray items) = VUndefined)
      by (apply normalize_undefined_iff; eauto).
    congruence.
  - exists rs. destruct (normalize_region_list rs) as (out & Hout & Hperm).
    rewrite Hout in H. injection H as <-.
    split; [reflexivity | split; [now apply Permutation_map |]].
    rewrite !length_map, <- (Permutation_length Hperm).
    apply filter_length_le.
Qed.

Lemma startOCR_returns_kept_regions_witness :
  normalize (DataArray (map ItemRegion sample_regions))
  = VArray (map ItemRegion sample_sorted)
  /\ exists rs,
       map ItemRegion sample_regions = map ItemRegion rs
       /\ Permutation (map ItemRegion (List.filter retained rs))
            (map ItemRegion sample_sorted)
       /\ (length (map ItemRegion sample_sorted)
           <= length (map ItemRegion sample_regions))%nat.
Proof.
  assert (H : normalize (DataArray (map ItemRegion sample_regions))
              = VArray (map ItemRegion sample_sorted))
    by (vm_compute; reflexivity).
  split; [exact H |].
  exact (startOCR_returns_kept_regions _ _ H).
Defined.

Lemma Array_sort_of_sorted (l : list IOcrResultItem) :
  Forall sortable l -> StronglySorted key_le l ->
  Array_sort compareFn (map ItemRegion l) = Normal (map ItemRegion l).
Proof.
  intros Gl Sl. induction Sl as [| a l Sl IH Ha]; [reflexivity |].
  apply Forall_cons_iff in Gl as [Ga Gl].
  cbn [map Array_sort]. rewrite (IH Gl). cbn.
  destruct l as [| b l]; [reflexivity |].
  apply Forall_cons_iff in Ha as [Hab _].
  apply Forall_cons_iff in Gl as [Gb _].
  cbn [map sort_insert].
  destruct (compareFn_key a b) as (v & -> & Hv); try apply Ga; try apply Gb.
  cbn. rewrite Hv. unfold key_le in Hab.
  destruct (key_compare a b); [reflexivity | reflexivity | congruence].
Qed.

Lemma filter_retained_all (l : list IOcrResultItem) :
  Forall sortable l -> List.filter retained l = l.
Proof.
  induction 1 as [| a l [_ Ha] _ IH]; [reflexivity |].
  cbn [List.filter]. now rewrite Ha, IH.
Qed.

(** Post-processing the array [startOCR] returned gives the same array
    again: what is returned is already filtered and in order. *)
Theorem startOCR_result_is_fixed_point (rs : list IOcrResultItem)
  (result : list Item) :
  Forall well_formed rs ->
  normalize (DataArray (map ItemRegion rs)) = VArray result ->
  normalize (DataArray result) = VArray result.
Proof.
  intros Hwf H.
  assert (Hgood : Forall sortable (List.filter retained rs)).
  { rewrite List.Forall_forall in *. intros r [Hin Hret]%filter_In.
    split; auto. }
  destruct (Array_sort_sorted _ Hgood) as (out & Hout & Hperm & Hsorted).
  assert (Hgood' : Forall sortable out)
    by (eapply Permutation_Forall; eassumption).
  unfold normalize, postProcess in H. cbn [or_empty] in H.
  rewrite Array_filter_regions in H. cbn in H. rewrite Hout in H.
  injection H as <-.
  unfold normalize, postProcess. cbn [or_empty].
  rewrite Array_filter_regions, (filter_retained_all out Hgood'). cbn.
  now rewrite (Array_sort_of_sorted out Hgood' Hsorted).
Qed.

Lemma startOCR_result_is_fixed_point_witness :
  Forall well_formed sample_regions
  /\ normalize (DataArray (map ItemRegion sample_regions))
     = VArray (map ItemRegion sample_sorted)
  /\ normalize (DataArray (map ItemRegion sample_sorted))
     = VArray (map ItemRegion sample_sorted).
Proof.
  assert (Hwf : Forall well_formed sample_regions)
    by (repeat constructor; vm_compute; reflexivity).
  assert (H : normalize (DataArray (map ItemRegion sample_regions))
              = VArray (map ItemRegion sample_sorted))
    by (vm_compute; reflexivity).
  split; [exact Hwf | split; [exact H |]].
  exact (startOCR_result_is_fixed_point _ _ Hwf H).
Defined.

Lemma key_compare_antisym (a b : IOcrResultItem) :
  key_compare b a = CompOpp (key_compare a b).
Proof.
  unfold key_compare.
  rewrite (Z.compare_antisym (num_key (y a)) (num_key (y b))).
  rewrite (Z.compare_antisym (num_key (x a)) (num_key (x b))).
  destruct (num_key (y a) ?= num_key (y b)); reflexivity.
Qed.

Lemma compare_sign_key (a b : IOcrResultItem) :
  sortable a -> sortable b -> compare_sign a b = Some (key_compare a b).
Proof.
  intros [Wa Ra] [Wb Rb]. unfold compare_sign.
  destruct (compareFn_key a b Wa Wb Ra Rb) as (v & -> & ->). reflexivity.
Qed.

(** The comparator given to [sort] is a consistent one on regions whose
    coordinates are doubles other than NaN: it never throws, swapping its
    arguments swaps the sign, a result that is not positive means "[a] is
    not after [b]" in reading order (by [y], then by [x]), zero means both
    coordinates are equal, and reading order is transitive.  Whatever way
    the engine sorts, the order it has to reach is therefore the same. *)
Theorem compareFn_consistent (a b c : IOcrResultItem) :
  sortable a -> sortable b -> sortable c ->
  exists s,
    compare_sign a b = Some s
    /\ compare_sign b a = Some (CompOpp s)
    /\ (s <> Gt <-> reading_order a b)
    /\ (s = Eq <-> SFeqb (y a) (y b) = true /\ SFeqb (x a) (x b) = true)
    /\ (reading_order a b -> reading_order b c -> reading_order a c).
Proof.
  intros Ga Gb Gc. exists (key_compare a b).
  pose proof Ga as [[Wax Way] [Nax Nay]%retained_inv].
  pose proof Gb as [[Wbx Wby] [Nbx Nby]%retained_inv].
  split; [now apply compare_sign_key |].
  split; [rewrite <- key_compare_antisym; now apply compare_sign_key |].
  split; [symmetry; apply reading_order_key; try apply Ga; try apply Gb |].
  split.
  - rewrite !SFeqb_key by assumption. unfold key_compare.
    destruct (Z.compare_spec (num_key (y a)) (num_key (y b)));
      destruct (Z.compare_spec (num_key (x a)) (num_key (x b)));
      split; intros; try discriminate; try lia; auto.
  - intros Hab Hbc.
    apply reading_order_key in Hab; try apply Ga; try apply Gb.
    apply reading_order_key in Hbc; try apply Gb; try apply Gc.
    apply reading_order_key; try apply Ga; try apply Gc.
    exact (key_le_trans a b c Hab Hbc).
Qed.

Lemma compareFn_consistent_witness :
  sortable sample_t /\ sortable sample_a /\ sortable sample_b
  /\ compare_sign sample_t sample_a = Some Lt
  /\ exists s,
       compare_sign sample_a sample_b = Some s
       /\ compare_sign sample_b sample_a = Some (CompOpp s)
       /\ (s <> Gt <-> reading_order sample_a sample_b)
       /\ (s = Eq <-> SFeqb (y sample_a) (y sample_b) = true
                      /\ SFeqb (x sample_a) (x sample_b) = true)
       /\ (reading_order sample_a sample_b -> reading_order sample_b sample_t ->
           reading_order sample_a sample_t).
Proof.
  assert (Ht : sortable sample_t) by (repeat split; vm_compute; reflexivity).
  assert (Ha : sortable sample_a) by (repeat split; vm_compute; reflexivity).
  assert (Hb : sortable sample_b) by (repeat split; vm_compute; reflexivity).
  split; [exact Ht | split; [exact Ha | split; [exact Hb | split]]].
  - vm_compute. reflexivity.
  - exact (compareFn_consistent sample_a sample_b sample_t Ha Hb Ht).
Defined.

(** ** More on messages and requests *)

Lemma messageFunc_foreign (d : EventData) (st : State) :
  foreign d = true -> messageFunc d st = st.
Proof.
  destruct d as [e |]; [| reflexivity]. cbn [foreign messageFunc].
  intros ->. reflexivity.
Qed.

(** A message whose data is [null] or [undefined], or whose [key] is not
    "ocr-message", changes nothing, whatever else it carries (a request
    id that is pending, the type "ocr-ready") and whatever the state;
    so does any sequence of such messages. *)
Theorem foreign_messages_ignored (ds : list EventData) (st : State) :
  Forall (fun d => foreign d = true) ds ->
  run (map Message ds) st = st.
Proof.
  induction 1 as [| d ds Hd _ IH]; [reflexivity |].
  cbn [map run fold_left step]. rewrite (messageFunc_foreign d st Hd).
  destruct (listening st); exact IH.
Qed.

Lemma foreign_messages_ignored_witness :
  Forall (fun d => foreign d = true)
    [EventNullish;
     EventObject {| e_key := Some "other"; e_requestId := Some 1;
                    e_type := Some "ocr-ready"; e_data := DataOther |};
     EventObject {| e_key := None; e_requestId := Some 1;
                    e_type := Some "ocr-ready"; e_data := DataFalsy |}]
  /\ run (map Message
            [EventNullish;
             EventObject {| e_key := Some "other"; e_requestId := Some 1;
                            e_type := Some "ocr-ready"; e_data := DataOther |};
             EventObject {| e_key := None; e_requestId := Some 1;
                            e_type := Some "ocr-ready"; e_data := DataFalsy |}])
       (run [CallInit; Message (EventObject ready_envelope); CallIsWebOcrReady]
          (initial "ocr.html"))
     = run [CallInit; Message (EventObject ready_envelope); CallIsWebOcrReady]
         (initial "ocr.html").
Proof.
  assert (H : Forall (fun d => foreign d = true)
    [EventNullish;
     EventObject {| e_key := Some "other"; e_requestId := Some 1;
                    e_type := Some "ocr-ready"; e_data := DataOther |};
     EventObject {| e_key := None; e_requestId := Some 1;
                    e_type := Some "ocr-ready"; e_data := DataFalsy |}])
    by (repeat constructor).
  split; [exact H |].
  exact (foreign_messages_ignored _ _ H).
Defined.

(** A request and its reply: with the transport in place, [sendMessage]
    posts [{key, requestId, action, data}] with the next id and returns a
    promise that is pending; the accepted envelope that carries this id
    fulfils that promise with itself, and the entry made for the request
    is gone from [resolveCache] afterwards. *)
Theorem request_reply_round_trip (st : State) (action : string)
  (data : option (OcrType * Content)) (e : Envelope) :
  sendMessageRef st = true ->
  e_key e = Some key ->
  e_requestId e = Some (increment (getRequestID_id st)) ->
  snd (sendMessage action data st) = RequestPromise (length (promises st))
  /\ posted (fst (sendMessage action data st))
     = posted st ++ [{| m_key := key;
                        m_requestId := increment (getRequestID_id st);
                        m_action := action; m_data := data |}]
  /\ awaited (RequestPromise (length (promises st)))
       (fst (sendMessage action data st)) = None
  /\ awaited (RequestPromise (length (promises st)))
       (messageFunc (EventObject e) (fst (sendMessage action data st)))
     = Some (VEnvelope e)
  /\ resolveCache (messageFunc (EventObject e) (fst (sendMessage action data st)))
     = delete (increment (getRequestID_id st)) (resolveCache st).
Proof.
  intros Href Hkey Hreq.
  assert (Hsend : sendMessage action data st
                  = (fst (sendMessageRef_call action data st),
                     RequestPromise (length (promises st)))).
  { unfold sendMessage. rewrite Href. reflexivity. }
  rewrite Hsend. cbn [fst snd].
  assert (Hcache : resolveCache (fst (sendMessageRef_call action data st))
                     !! increment (getRequestID_id st)
                   = Some (length (promises st))).
  { unfold sendMessageRef_call, getRequestID. fields. apply lookup_insert_eq. }
  destruct (messageFunc_delivers _ e _ _ Hkey Hreq Hcache) as (_ & Hc & Hp).
  split; [reflexivity | split; [reflexivity | split; [| split]]].
  - unfold awaited, sendMessageRef_call, getRequestID. fields.
    rewrite lookup_app_r by done. now rewrite Nat.sub_diag.
  - unfold awaited. rewrite Hp.
    unfold sendMessageRef_call, getRequestID. fields.
    rewrite list_lookup_alter_eq, lookup_app_r by done.
    now rewrite Nat.sub_diag.
  - rewrite Hc. unfold sendMessageRef_call, getRequestID. fields.
    apply delete_insert_eq.
Qed.

Lemma request_reply_round_trip_witness :
  sendMessageRef
    (run [CallInit; Message (EventObject ready_envelope)] (initial "ocr.html"))
  = true
  /\ awaited (RequestPromise 0)
       (messageFunc (EventObject (reply 1 DataOther))
          (fst (sendMessage "isWebOcrReady" None
                  (run [CallInit; Message (EventObject ready_envelope)]
                     (initial "ocr.html")))))
     = Some (VEnvelope (reply 1 DataOther)).
Proof.
  split; [reflexivity |].
  exact (proj1 (proj2 (proj2 (proj2
    (request_reply_round_trip
       (run [CallInit; Message (EventObject ready_envelope)] (initial "ocr.html"))
       "isWebOcrReady" None (reply 1 DataOther) eq_refl eq_refl eq_refl))))).
Defined.



(** ** What the manager keeps *)

Lemma sendMessage_effect action data (st : State) :
  calls (fst (sendMessage action data st)) = calls st
  /\ console (fst (sendMessage action data st)) = console st
  /\ delivered (fst (sendMessage action data st)) = delivered st
  /\ promises (fst (sendMessage action data st))
     = promises st ++ (if sendMessageRef st then [Pending] else [])
  /\ posted (fst (sendMessage action data st))
     = posted st ++
       (if sendMessageRef st
        then [{| m_key := key; m_requestId := increment (getRequestID_id st);
                 m_action := action; m_data := data |}]
        else []).
Proof.
  unfold sendMessage. destruct (sendMessageRef st); cbn [negb].
  - unfold sendMessageRef_call, getRequestID. fields. repeat split.
  - fields. rewrite !app_nil_r. repeat split.
Qed.

Lemma continue_effect (k : Continuation) (v : Value) (st : State) :
  calls (fst (continue k v st)) = calls st
  /\ delivered (fst (continue k v st)) = delivered st
  /\ (exists l, promises (fst (continue k v st)) = promises st ++ l)
  /\ (exists l, posted (fst (continue k v st)) = posted st ++ l
                /\ (sendMessageRef st = false -> l = [])
                /\ Forall manager_message l).
Proof.
  assert (Hnone : calls st = calls st /\ delivered st = delivered st
            /\ (exists l, promises st = promises st ++ l)
            /\ (exists l, posted st = posted st ++ l
                 /\ (sendMessageRef st = false -> l = [])
                 /\ Forall manager_message l)).
  { split; [reflexivity | split; [reflexivity | split]];
      exists []; rewrite app_nil_r; auto. }
  assert (Hsend : forall action data,
            manager_message {| m_key := key;
                               m_requestId := increment (getRequestID_id st);
                               m_action := action; m_data := data |} ->
            calls (fst (sendMessage action data st)) = calls st
            /\ delivered (fst (sendMessage action data st)) = delivered st
            /\ (exists l, promises (fst (sendMessage action data st))
                          = promises st ++ l)
            /\ (exists l, posted (fst (sendMessage action data st))
                          = posted st ++ l
                 /\ (sendMessageRef st = false -> l = [])
                 /\ Forall manager_message l)).
  { intros action data Hm.
    destruct (sendMessage_effect action data st) as (Hc & _ & Hd & Hp & Hq).
    split; [exact Hc | split; [exact Hd | split]].
    - eexists. exact Hp.
    - eexists. split; [exact Hq | split].
      + now intros ->.
      + destruct (sendMessageRef st); [| constructor].
        constructor; [exact Hm | constructor]. }
  destruct k as [type content | type content | |]; cbn [continue].
  - specialize (Hsend "isWebOcrReady" None).
    destruct (sendMessage "isWebOcrReady" None st). apply Hsend.
    split; [reflexivity | left; split; reflexivity].
  - destruct (negb (truthy v)); [exact Hnone |].
    specialize (Hsend "startOcr" (Some (type, content))).
    destruct (sendMessage "startOcr" (Some (type, content)) st). apply Hsend.
    split; [reflexivity | right; split; [reflexivity | discriminate]].
  - exact Hnone.
  - exact Hnone.
Qed.

Lemma init_effect (st : State) :
  calls (fst (init st)) = calls st /\ promises (fst (init st)) = promises st
  /\ posted (fst (init st)) = posted st /\ clock (fst (init st)) = clock st
  /\ sendMessageRef (fst (init st)) = sendMessageRef st
  /\ delivered (fst (init st)) = delivered st
  /\ (listening st = true -> listening (fst (init st)) = true).
Proof. unfold init. destruct (iframe st); fields; repeat split; auto. Qed.

Lemma messageFunc_effect (d : EventData) (st : State) :
  calls (messageFunc d st) = calls st /\ posted (messageFunc d st) = posted st
  /\ clock (messageFunc d st) = clock st
  /\ listening (messageFunc d st) = listening st
  /\ iframe (messageFunc d st) = iframe st
  /\ (sendMessageRef st = true -> sendMessageRef (messageFunc d st) = true)
  /\ (signals_ready d = true -> sendMessageRef (messageFunc d st) = true)
  /\ (signals_ready d = false ->
      sendMessageRef (messageFunc d st) = sendMessageRef st)
  /\ (forall p e, promises st !! p = Some (Fulfilled e) ->
        promises (messageFunc d st) !! p = Some (Fulfilled e))
  /\ length (promises (messageFunc d st)) = length (promises st).
Proof.
  destruct d as [e |]; [| cbn; repeat split; auto; discriminate].
  unfold messageFunc, signals_ready.
  destruct (bool_decide (e_key e = Some key)); cbn [negb andb];
    [| repeat split; auto; discriminate].
  assert (Halter : forall p' p e',
            promises st !! p = Some (Fulfilled e') ->
            alter (resolve e) p' (promises st) !! p = Some (Fulfilled e')).
  { intros p' p e' Hp. destruct (decide (p' = p)) as [-> | Hne].
    - now rewrite list_lookup_alter_eq, Hp.
    - now rewrite list_lookup_alter_ne. }
  destruct (bool_decide (e_type e = Some "ocr-ready"));
    destruct (e_requestId e) as [r |]; try destruct (resolveCache st !! r);
    unfold callback; fields; rewrite ?length_alter;
    repeat split; auto; discriminate.
Qed.

Lemma step_clock (st : State) (ev : Event) :
  clock (step st ev) = clock_after (clock st) ev.
Proof.
  destruct ev as [| type content | | d | | ms | k]; cbn [step clock_after].
  - apply init_effect.
  - unfold startOCR. pose proof (init_effect st) as (_ & _ & _ & H & _).
    destruct (init st). fields. exact H.
  - unfold isWebOcrReady.
    pose proof (sendMessage_same_manager "isWebOcrReady" None st) as H.
    destruct (sendMessage "isWebOcrReady" None st). fields. apply H.
  - destruct (listening st); [apply messageFunc_effect | reflexivity].
  - destruct (timer st) as [due |]; [| reflexivity].
    destruct (due <=? clock st); reflexivity.
  - reflexivity.
  - apply resume_same_manager.
Qed.

Lemma run_clock (tr : list Event) (st : State) :
  clock (run tr st) = clock st + elapsed tr.
Proof.
  revert st. induction tr as [| ev tr IH]; intros st; cbn [run fold_left elapsed].
  - lia.
  - unfold run in IH. rewrite IH, step_clock. destruct ev; cbn [clock_after]; lia.
Qed.

Lemma settlement_false_late (now due : Z) (tr : list Event) :
  settlement now due tr = Fulfilled false -> due <= now + elapsed tr.
Proof.
  revert now. induction tr as [| ev tr IH]; intros now; [discriminate |].
  destruct ev as [| type content | | d | | ms | k]; cbn [settlement elapsed];
    try apply IH.
  - destruct (signals_ready d); [discriminate | apply IH].
  - destruct (Z.leb_spec due now) as [Hle | Hgt]; [intros _ | apply IH].
    assert (0 <= elapsed tr); [| lia].
    clear. induction tr as [| [] tr IH']; cbn [elapsed]; lia.
  - intros H%IH. lia.
Qed.

(** The promise of [init] is never resolved to [false] before 30 seconds
    have passed since the call that made it. *)
Theorem init_false_only_after_30s (st : State) (tr : list Event) :
  iframe st = None ->
  initPromise (run tr (fst (init st))) = Some (Fulfilled false) ->
  clock st + 30000 <= clock (run tr (fst (init st))).
Proof.
  intros Hf H. destruct (init_first st Hf) as (_ & Hw & Hclock).
  rewrite (waiting_run _ tr _ Hw), Hclock in H. injection H as H.
  apply settlement_false_late in H. rewrite run_clock, Hclock. exact H.
Qed.

Lemma init_false_only_after_30s_witness :
  iframe (initial "ocr.html") = None
  /\ initPromise (run [Elapse 12000; TimerFires; Elapse 18000; TimerFires]
                    (fst (init (initial "ocr.html"))))
     = Some (Fulfilled false)
  /\ clock (initial "ocr.html") + 30000
     <= clock (run [Elapse 12000; TimerFires; Elapse 18000; TimerFires]
                 (fst (init (initial "ocr.html")))).
Proof.
  assert (H : initPromise (run [Elapse 12000; TimerFires; Elapse 18000; TimerFires]
                    (fst (init (initial "ocr.html"))))
     = Some (Fulfilled false)) by (vm_compute; reflexivity).
  split; [reflexivity | split; [exact H |]].
  exact (init_false_only_after_30s (initial "ocr.html") _ eq_refl H).
Defined.

Lemma resume_effect (k : nat) (st : State) :
  resume k st = st \/
  exists a cont v,
    calls st !! k = Some (Suspended a cont) /\ awaited a st = Some v
    /\ calls (resume k st) = <[k := snd (continue cont v st)]> (calls st)
    /\ promises (resume k st) = promises (fst (continue cont v st))
    /\ posted (resume k st) = posted (fst (continue cont v st))
    /\ delivered (resume k st) = delivered st.
Proof.
  unfold resume. destruct (calls st !! k) as [[a cont | w] |] eqn:Hk; auto.
  destruct (awaited a st) as [v |] eqn:Ha; auto.
  right. exists a, cont, v.
  destruct (continue_effect cont v st) as (Hc & Hd & _).
  destruct (continue cont v st) as [st' c]. cbn [fst snd] in *. fields.
  rewrite Hc, Hd. repeat split; auto.
Qed.

Lemma step_keeps (st : State) (ev : Event) :
  (forall f, iframe st = Some f -> iframe (step st ev) = Some f)
  /\ (listening st = true -> listening (step st ev) = true)
  /\ (sendMessageRef st = true -> sendMessageRef (step st ev) = true)
  /\ (forall p e, promises st !! p = Some (Fulfilled e) ->
        promises (step st ev) !! p = Some (Fulfilled e))
  /\ (forall k v, calls st !! k = Some (Returned v) ->
        calls (step st ev) !! k = Some (Returned v)).
Proof.
  destruct ev as [| type content | | d | | ms | k]; cbn [step].
  - destruct (init_effect st) as (Hc & Hp & _ & _ & Hs & _ & Hl).
    rewrite Hc, Hp, Hs.
    repeat split; auto. intros f Hf. now rewrite (init_again st f Hf).
  - unfold startOCR. destruct (init_effect st) as (Hc & Hp & _ & _ & Hs & _ & Hl).
    pose proof (init_again st) as Hagain.
    destruct (init st) as [st' a]. cbn [fst] in *. fields.
    rewrite Hc, Hp, Hs. repeat split; auto.
    + intros f Hf. specialize (Hagain f Hf). injection Hagain as -> _. exact Hf.
    + intros k v Hk. now apply lookup_app_l_Some.
  - unfold isWebOcrReady.
    destruct (sendMessage_effect "isWebOcrReady" None st) as (Hc & _ & _ & Hp & _).
    destruct (sendMessage_same_manager "isWebOcrReady" None st)
      as (Hi & Hl & _ & _ & _ & Hs).
    destruct (sendMessage "isWebOcrReady" None st) as [st' a].
    cbn [fst] in *. fields. rewrite Hc, Hp, Hi, Hl, Hs. repeat split; auto.
    + intros p e He. now apply lookup_app_l_Some.
    + intros k v Hk. now apply lookup_app_l_Some.
  - destruct (listening st) eqn:Hlis; [| rewrite Hlis; repeat split; auto].
    destruct (messageFunc_effect d st)
      as (Hc & _ & _ & Hl & Hi & Hs & _ & _ & Hp & _).
    rewrite Hc, Hl, Hi. repeat split; auto.
  - destruct (timer st) as [due |]; [| repeat split; auto].
    destruct (due <=? clock st); repeat split; auto.
  - fields. repeat split; auto.
  - destruct (resume_same_manager k st) as (Hi & Hl & _ & _ & _ & Hs).
    rewrite Hi, Hl, Hs.
    destruct (resume_effect k st) as [-> | (a & cont & v & Hk & _ & Hc & Hp & _)];
      [repeat split; auto |].
    rewrite Hc, Hp. repeat split; auto.
    + intros p e He.
      destruct (continue_effect cont v st) as (_ & _ & [l ->] & _).
      now apply lookup_app_l_Some.
    + intros k' w Hk'. rewrite list_lookup_insert_ne; [exact Hk' |].
      intros ->. congruence.
Qed.

Lemma run_keeps (tr : list Event) (st : State) :
  (forall f, iframe st = Some f -> iframe (run tr st) = Some f)
  /\ (listening st = true -> listening (run tr st) = true)
  /\ (sendMessageRef st = true -> sendMessageRef (run tr st) = true)
  /\ (forall p e, promises st !! p = Some (Fulfilled e) ->
        promises (run tr st) !! p = Some (Fulfilled e))
  /\ (forall k v, calls st !! k = Some (Returned v) ->
        calls (run tr st) !! k = Some (Returned v)).
Proof.
  revert st. induction tr as [| ev tr IH]; intros st; [repeat split; auto |].
  cbn [run fold_left].
  destruct (step_keeps st ev) as (H1 & H2 & H3 & H4 & H5).
  destruct (IH (step st ev)) as (I1 & I2 & I3 & I4 & I5).
  unfold run in *. repeat split; auto.
Qed.

(** What has been reached is kept, along every sequence of events: the
    frame stays the one that was made, the listener stays, the transport
    stays in place once a readiness signal has put it there, a request's
    promise keeps the envelope it was fulfilled with, and a call that has
    returned keeps its result. *)
Theorem manager_never_goes_back (tr : list Event) (st : State) :
  (forall f, iframe st = Some f -> iframe (run tr st) = Some f)
  /\ (listening st = true -> listening (run tr st) = true)
  /\ (sendMessageRef st = true -> sendMessageRef (run tr st) = true)
  /\ (forall p e, promises st !! p = Some (Fulfilled e) ->
        promises (run tr st) !! p = Some (Fulfilled e))
  /\ (forall k v, calls st !! k = Some (Returned v) ->
        calls (run tr st) !! k = Some (Returned v)).
Proof. exact (run_keeps tr st). Qed.

Lemma manager_never_goes_back_witness :
  sendMessageRef (run [CallInit; Message (EventObject ready_envelope)]
                    (initial "ocr.html")) = true
  /\ sendMessageRef
       (run [Elapse 30000; TimerFires; CallInit; CallIsWebOcrReady;
             Message EventNullish]
          (run [CallInit; Message (EventObject ready_envelope)]
             (initial "ocr.html"))) = true.
Proof.
  split; [reflexivity |].
  exact (proj1 (proj2 (proj2 (manager_never_goes_back
           [Elapse 30000; TimerFires; CallInit; CallIsWebOcrReady;
            Message EventNullish]
           (run [CallInit; Message (EventObject ready_envelope)]
              (initial "ocr.html"))))) eq_refl).
Defined.

Lemma step_posted (st : State) (ev : Event) :
  exists l, posted (step st ev) = posted st ++ l
            /\ (sendMessageRef st = false -> l = [])
            /\ Forall manager_message l.
Proof.
  assert (Hnone : exists l, posted st = posted st ++ l
                    /\ (sendMessageRef st = false -> l = [])
                    /\ Forall manager_message l)
    by (exists []; rewrite app_nil_r; auto).
  destruct ev as [| type content | | d | | ms | k]; cbn [step].
  - destruct (init_effect st) as (_ & _ & -> & _). exact Hnone.
  - unfold startOCR. destruct (init_effect st) as (_ & _ & Hp & _).
    destruct (init st). cbn [fst] in *. fields. rewrite Hp. exact Hnone.
  - unfold isWebOcrReady.
    destruct (sendMessage_effect "isWebOcrReady" None st) as (_ & _ & _ & _ & Hq).
    destruct (sendMessage "isWebOcrReady" None st). cbn [fst] in *. fields.
    eexists. split; [exact Hq | split].
    + now intros ->.
    + destruct (sendMessageRef st); [| constructor].
      constructor; [| constructor].
      split; [reflexivity | left; split; reflexivity].
  - destruct (listening st); [| exact Hnone].
    destruct (messageFunc_effect d st) as (_ & -> & _). exact Hnone.
  - destruct (timer st) as [due |]; [| exact Hnone].
    destruct (due <=? clock st); exact Hnone.
  - exact Hnone.
  - destruct (resume_effect k st) as [-> | (a & cont & v & _ & _ & _ & _ & -> & _)];
      [exact Hnone |].
    apply continue_effect.
Qed.

(** Every message the manager ever posts into the frame carries the key
    "ocr-message" and is either the readiness request "isWebOcrReady",
    without data, or the recognition request "startOcr" with its data; in
    a run of fewer than 2^53 events the ids count up from 1, the i-th
    message posted carrying the id i, and the counter of [getRequestID]
    holds the number of messages posted. *)
Theorem posted_messages_well_formed (page : string) (tr : list Event) :
  Forall manager_message (posted (run tr (initial page)))
  /\ (Z.of_nat (length tr) < 2 ^ 53 ->
      (forall i m, posted (run tr (initial page)) !! i = Some m ->
         m_requestId m = Z.of_nat i + 1)
      /\ getRequestID_id (run tr (initial page))
         = Z.of_nat (length (posted (run tr (initial page))))).
Proof.
  split.
  - assert (H : forall tr st, Forall manager_message (posted st) ->
                  Forall manager_message (posted (run tr st))).
    { clear. induction tr as [| ev tr IH]; intros st H; [exact H |].
      cbn [run fold_left]. apply IH.
      destruct (step_posted st ev) as (l & -> & _ & Hl).
      apply Forall_app. split; assumption. }
    apply H. constructor.
  - intros Hlen. split; [intros i m; now apply posted_ids |].
    pose proof (Invariant_run tr _ (Invariant_initial page)) as I.
    rewrite (inv_id _ I).
    pose proof (run_posted_length tr (initial page)).
    cbn [initial posted length] in *. lia.
Qed.

Lemma posted_messages_well_formed_witness :
  Z.of_nat (length [CallStartOCR blob (ContentBlob 2048);
                    Message (EventObject ready_envelope); Resume 0;
                    Message (EventObject (reply 1 DataFalsy)); Resume 0])
  < 2 ^ 53
  /\ map m_requestId
       (posted (run [CallStartOCR blob (ContentBlob 2048);
                     Message (EventObject ready_envelope); Resume 0;
                     Message (EventObject (reply 1 DataFalsy)); Resume 0]
                  (initial "ocr.html"))) = [1; 2]
  /\ getRequestID_id
       (run [CallStartOCR blob (ContentBlob 2048);
             Message (EventObject ready_envelope); Resume 0;
             Message (EventObject (reply 1 DataFalsy)); Resume 0]
          (initial "ocr.html"))
     = Z.of_nat (length (posted
         (run [CallStartOCR blob (ContentBlob 2048);
               Message (EventObject ready_envelope); Resume 0;
               Message (EventObject (reply 1 DataFalsy)); Resume 0]
            (initial "ocr.html")))).
Proof.
  assert (H : Z.of_nat (length [CallStartOCR blob (ContentBlob 2048);
                    Message (EventObject ready_envelope); Resume 0;
                    Message (EventObject (reply 1 DataFalsy)); Resume 0])
              < 2 ^ 53) by (vm_compute; reflexivity).
  split; [exact H | split; [vm_compute; reflexivity |]].
  exact (proj2 (proj2 (posted_messages_well_formed "ocr.html" _) H)).
Defined.

(** ** Pending requests *)

Lemma Connected_initial (page : string) : Connected (initial page).
Proof. split; cbn; done. Qed.

Lemma Connected_ext (st st' : State) :
  sendMessageRef st' = sendMessageRef st -> listening st' = listening st ->
  iframe st' = iframe st -> posted st' = posted st ->
  promises st' = promises st -> resolveCache st' = resolveCache st ->
  Connected st -> Connected st'.
Proof.
  intros H1 H2 H3 H4 H5 H6 [C1 C2 C3 C4].
  split; rewrite ?H1, ?H2, ?H3, ?H4, ?H5, ?H6; assumption.
Qed.

Lemma Connected_init (st : State) :
  Invariant st -> Connected st -> Connected (fst (init st)).
Proof.
  intros I C. unfold init.
  destruct (iframe st) as [f |] eqn:Hf; [exact C |].
  destruct C as [C1 C2 C3 C4].
  assert (Hl : listening st = false).
  { destruct (listening st); [| reflexivity]. now destruct C2. }
  assert (Hs : sendMessageRef st = false).
  { destruct (sendMessageRef st); [| reflexivity]. rewrite C1 in Hl; done. }
  assert (Hp : promises st = []).
  { apply length_zero_iff_nil. rewrite <- (inv_promises st I), (C3 Hs).
    reflexivity. }
  split; fields; try done.
  intros _ p. rewrite Hp, lookup_nil. discriminate.
Qed.

Lemma Connected_sendMessage action data (st : State) :
  Invariant st -> Connected st -> Connected (fst (sendMessage action data st)).
Proof.
  intros I C. unfold sendMessage.
  destruct (negb (sendMessageRef st)) eqn:Hs; [exact C |].
  apply negb_false_iff in Hs. destruct C as [C1 C2 C3 C4].
  unfold sendMessageRef_call, getRequestID. split; fields; try assumption.
  - rewrite Hs. discriminate.
  - rewrite length_app. cbn [length]. intros Hlen p Hp.
    assert (Hid : increment (getRequestID_id st)
                  = Z.of_nat (length (promises st)) + 1).
    { rewrite (inv_id st I), increment_min, (inv_promises st I) by lia.
      rewrite <- (inv_promises st I). lia. }
    rewrite Hid.
    apply lookup_app_Some in Hp as [Hp | [Hge Hp]].
    + rewrite lookup_insert_ne.
      * apply C4; [lia | exact Hp].
      * apply lookup_lt_Some in Hp. lia.
    + destruct (p - length (promises st))%nat as [| n] eqn:Hn; [| done].
      replace p with (length (promises st)) by lia.
      apply lookup_insert_eq.
Qed.

Lemma Connected_messageFunc (d : EventData) (st : State) :
  Invariant st -> Connected st -> listening st = true ->
  Connected (messageFunc d st).
Proof.
  intros I [C1 C2 C3 C4] Hl. unfold messageFunc.
  destruct d as [e |]; [| split; assumption].
  destruct (bool_decide (e_key e = Some key)); cbn [negb]; [| split; assumption].
  assert (C' : Connected
    match e_requestId e with
    | Some r =>
        match resolveCache st !! r with
        | Some p => set_resolveCache (delete r (resolveCache st)) (callback p e st)
        | None => st
        end
    | None => st
    end).
  { destruct (e_requestId e) as [r |]; [| split; assumption].
    destruct (resolveCache st !! r) as [p' |] eqn:Hr; [| split; assumption].
    destruct (inv_cache st I r p' Hr) as (Hpend & _ & m & Hm & Hid).
    unfold callback. split; fields; try assumption.
    intros Hlen p Hp.
    destruct (decide (p' = p)) as [-> | Hne].
    { rewrite list_lookup_alter_eq, Hpend in Hp. discriminate. }
    rewrite list_lookup_alter_ne in Hp by exact Hne.
    rewrite lookup_delete_ne; [now apply C4 |].
    intros ->. rewrite (C4 Hlen p Hp) in Hr. congruence. }
  destruct (bool_decide (e_type e = Some "ocr-ready")); [| exact C'].
  destruct C' as [D1 D2 D3 D4].
  assert (Hl' : listening
    match e_requestId e with
    | Some r =>
        match resolveCache st !! r with
        | Some p => set_resolveCache (delete r (resolveCache st)) (callback p e st)
        | None => st
        end
    | None => st
    end = true).
  { destruct (e_requestId e) as [r |]; [| exact Hl].
    destruct (resolveCache st !! r); exact Hl. }
  split; fields; try assumption; done.
Qed.

Lemma Connected_continue (k : Continuation) (v : Value) (st : State) :
  Invariant st -> Connected st -> Connected (fst (continue k v st)).
Proof.
  intros I C. destruct k as [type content | type content | |]; cbn [continue].
  - pose proof (Connected_sendMessage "isWebOcrReady" None st I C) as H.
    destruct (sendMessage "isWebOcrReady" None st). exact H.
  - destruct (negb (truthy v)).
    + eapply Connected_ext; [.. | exact C]; reflexivity.
    + pose proof (Connected_sendMessage "startOcr" (Some (type, content)) st I C)
        as H.
      destruct (sendMessage "startOcr" (Some (type, content)) st). exact H.
  - exact C.
  - exact C.
Qed.

Lemma Connected_step (st : State) (ev : Event) :
  Invariant st -> Connected st -> Connected (step st ev).
Proof.
  intros I C. destruct ev as [| type content | | d | | ms | k]; cbn [step].
  - now apply Connected_init.
  - unfold startOCR. pose proof (Connected_init st I C) as H.
    destruct (init st). eapply Connected_ext; [.. | exact H]; reflexivity.
  - unfold isWebOcrReady.
    pose proof (Connected_sendMessage "isWebOcrReady" None st I C) as H.
    destruct (sendMessage "isWebOcrReady" None st).
    eapply Connected_ext; [.. | exact H]; reflexivity.
  - destruct (listening st) eqn:Hl; [now apply Connected_messageFunc | exact C].
  - destruct (timer st) as [due |]; [| exact C].
    destruct (due <=? clock st); [| exact C].
    eapply Connected_ext; [.. | exact C]; reflexivity.
  - eapply Connected_ext; [.. | exact C]; reflexivity.
  - unfold resume. destruct (calls st !! k) as [[a cont | v] |]; try exact C.
    destruct (awaited a st) as [v |]; [| exact C].
    pose proof (Connected_continue cont v st I C) as H.
    destruct (continue cont v st). eapply Connected_ext; [.. | exact H]; reflexivity.
Qed.

Lemma Connected_run (tr : list Event) (st : State) :
  Invariant st -> Connected st -> Connected (run tr st).
Proof.
  revert st. induction tr as [| ev tr IH]; intros st I C; [exact C |].
  apply IH; [now apply Invariant_step | now apply Connected_step].
Qed.

(** No request is lost: in a run of fewer than 2^53 events from the
    initial page, a request whose promise is still pending (the p-th one
    made, counting from 0) has its callback in [resolveCache] under its
    id p + 1, and the next accepted envelope with that id fulfils the
    promise with itself. *)
Theorem pending_request_gets_its_reply (page : string) (tr : list Event)
  (p : nat) (e : Envelope) :
  Z.of_nat (length tr) < 2 ^ 53 ->
  promises (run tr (initial page)) !! p = Some Pending ->
  e_key e = Some key ->
  e_requestId e = Some (Z.of_nat p + 1) ->
  resolveCache (run tr (initial page)) !! (Z.of_nat p + 1) = Some p
  /\ (exists m, posted (run tr (initial page)) !! p = Some m
                /\ m_requestId m = Z.of_nat p + 1)
  /\ promises (step (run tr (initial page)) (Message (EventObject e))) !! p
     = Some (Fulfilled e)
  /\ resolveCache (step (run tr (initial page)) (Message (EventObject e)))
       !! (Z.of_nat p + 1) = None.
Proof.
  intros Hlen Hp Hkey Hreq.
  pose proof (Invariant_run tr _ (Invariant_initial page)) as I.
  pose proof (Connected_run tr _ (Invariant_initial page) (Connected_initial page))
    as C.
  pose proof (run_posted_length tr (initial page)) as Hposted.
  cbn [initial posted length] in Hposted.
  set (st := run tr (initial page)) in *.
  assert (Hc : resolveCache st !! (Z.of_nat p + 1) = Some p)
    by (apply (con_pending st C); [lia | exact Hp]).
  assert (Hl : listening st = true).
  { apply (con_listening st C). destruct (sendMessageRef st) eqn:Hs; [reflexivity |].
    pose proof (con_posted st C Hs) as Hnil.
    apply lookup_lt_Some in Hp. rewrite <- (inv_promises st I), Hnil in Hp.
    cbn in Hp. lia. }
  destruct (inv_cache st I _ p Hc) as (_ & _ & Hm).
  destruct (messageFunc_delivers st e _ p Hkey Hreq Hc) as (_ & Hc' & Hp').
  split; [exact Hc | split; [exact Hm |]].
  cbn [step]. rewrite Hl, Hc', Hp'. split.
  - now rewrite list_lookup_alter_eq, Hp.
  - apply lookup_delete_eq.
Qed.

Lemma pending_request_gets_its_reply_witness :
  Z.of_nat (length [CallInit; Message (EventObject ready_envelope);
                    CallIsWebOcrReady; CallIsWebOcrReady;
                    Message (EventObject (reply 1 DataFalsy))]) < 2 ^ 53
  /\ promises (run [CallInit; Message (EventObject ready_envelope);
                    CallIsWebOcrReady; CallIsWebOcrReady;
                    Message (EventObject (reply 1 DataFalsy))]
                 (initial "ocr.html")) !! 1%nat = Some Pending
  /\ promises (step (run [CallInit; Message (EventObject ready_envelope);
                          CallIsWebOcrReady; CallIsWebOcrReady;
                          Message (EventObject (reply 1 DataFalsy))]
                       (initial "ocr.html"))
                 (Message (EventObject (reply 2 DataOther)))) !! 1%nat
     = Some (Fulfilled (reply 2 DataOther)).
Proof.
  assert (H1 : Z.of_nat (length [CallInit; Message (EventObject ready_envelope);
                    CallIsWebOcrReady; CallIsWebOcrReady;
                    Message (EventObject (reply 1 DataFalsy))]) < 2 ^ 53)
    by (vm_compute; reflexivity).
  assert (H2 : promises (run [CallInit; Message (EventObject ready_envelope);
                    CallIsWebOcrReady; CallIsWebOcrReady;
                    Message (EventObject (reply 1 DataFalsy))]
                 (initial "ocr.html")) !! 1%nat = Some Pending)
    by (vm_compute; reflexivity).
  split; [exact H1 | split; [exact H2 |]].
  exact (proj1 (proj2 (proj2
    (pending_request_gets_its_reply "ocr.html" _ 1%nat (reply 2 DataOther)
       H1 H2 eq_refl eq_refl)))).
Defined.

(** ** Calls of [startOCR] *)

Lemma step_without_transport (st : State) (ev : Event) :
  sendMessageRef (step st ev) = false ->
  Forall without_transport (calls st) ->
  Forall without_transport (calls (step st ev)).
Proof.
  intros Hs' Hc.
  assert (Hs : sendMessageRef st = false).
  { destruct (sendMessageRef st) eqn:H; [| reflexivity].
    destruct (step_keeps st ev) as (_ & _ & Hk & _). rewrite (Hk H) in Hs'.
    discriminate. }
  destruct ev as [| type content | | d | | ms | k]; cbn [step] in *.
  - destruct (init_effect st) as (-> & _). exact Hc.
  - unfold startOCR, init. destruct (iframe st); fields;
      apply Forall_app; (split; [exact Hc |]); repeat constructor.
  - unfold isWebOcrReady. rewrite (sendMessage_undefined _ _ st Hs). fields.
    apply Forall_app. split; [exact Hc |]. repeat constructor.
  - destruct (listening st); [| exact Hc].
    destruct (messageFunc_effect d st) as (-> & _). exact Hc.
  - destruct (timer st) as [due |]; [| exact Hc].
    destruct (due <=? clock st); exact Hc.
  - exact Hc.
  - unfold resume. destruct (calls st !! k) as [[a cont | v] |] eqn:Hk;
      try exact Hc.
    destruct (awaited a st) as [v |] eqn:Ha; [| exact Hc].
    assert (Hidle : without_transport (Suspended a cont)).
    { rewrite List.Forall_forall in Hc. apply Hc.
      apply list_elem_of_In, list_elem_of_lookup. eauto. }
    destruct cont as [type content | type content | |]; cbn [continue].
    + rewrite (sendMessage_undefined _ _ st Hs). fields.
      apply Forall_insert; [exact Hc | exact I].
    + destruct a as [| p | []]; cbn in Hidle; try contradiction.
      injection Ha as <-. cbn [truthy negb]. fields.
      apply Forall_insert; [exact Hc | exact I].
    + destruct a as [| p | []]; cbn in Hidle; contradiction.
    + destruct a as [| p | []]; cbn in Hidle; try contradiction.
      injection Ha as <-. fields.
      apply Forall_insert; [exact Hc | exact I].
Qed.

Lemma run_without_transport (tr : list Event) (st : State) :
  sendMessageRef (run tr st) = false ->
  Forall without_transport (calls st) ->
  Forall without_transport (calls (run tr st))
  /\ posted (run tr st) = posted st.
Proof.
  revert st. induction tr as [| ev tr IH]; intros st Hs Hc; [auto |].
  cbn [run fold_left] in *.
  assert (Hs' : sendMessageRef (step st ev) = false).
  { destruct (sendMessageRef (step st ev)) eqn:H; [| reflexivity].
    destruct (run_keeps tr (step st ev)) as (_ & _ & Hk & _).
    unfold run in Hk. rewrite (Hk H) in Hs. discriminate. }
  destruct (IH (step st ev) Hs (step_without_transport st ev Hs' Hc)) as [H1 H2].
  split; [exact H1 |]. unfold run in H2. rewrite H2.
  destruct (step_posted st ev) as (l & -> & Hl & _).
  assert (Hst : sendMessageRef st = false).
  { destruct (sendMessageRef st) eqn:H; [| reflexivity].
    destruct (step_keeps st ev) as (_ & _ & Hk & _). rewrite (Hk H) in Hs'.
    discriminate. }
  rewrite (Hl Hst). apply app_nil_r.
Qed.

(** As long as no readiness signal has put the transport in place, no
    message is posted into the frame, and a call that has returned has
    returned the empty array ([startOCR]) or [undefined]
    ([isWebOcrReady]), whatever was called and whatever arrived. *)
Theorem nothing_sent_before_ready (page : string) (tr : list Event) :
  sendMessageRef (run tr (initial page)) = false ->
  posted (run tr (initial page)) = []
  /\ promises (run tr (initial page)) = []
  /\ forall k v, calls (run tr (initial page)) !! k = Some (Returned v) ->
       v = VArray [] \/ v = VUndefined.
Proof.
  intros Hs.
  destruct (run_without_transport tr (initial page) Hs) as [Hc Hp];
    [constructor |].
  pose proof (Invariant_run tr _ (Invariant_initial page)) as I.
  split; [exact Hp | split].
  - apply length_zero_iff_nil. rewrite <- (inv_promises _ I), Hp. reflexivity.
  - intros k v Hk. rewrite List.Forall_forall in Hc.
    assert (H : without_transport (Returned v)).
    { apply Hc. apply list_elem_of_In, list_elem_of_lookup. eauto. }
    destruct v as [| b | e | [| i items]]; cbn in H; try contradiction; auto.
Qed.

Lemma nothing_sent_before_ready_witness :
  sendMessageRef
    (run [CallStartOCR file (ContentFile "scan.png"); CallIsWebOcrReady;
          Message (EventObject (reply 1 DataOther)); Resume 1; Elapse 30000;
          TimerFires; Resume 0; Resume 0] (initial "ocr.html")) = false
  /\ calls
       (run [CallStartOCR file (ContentFile "scan.png"); CallIsWebOcrReady;
             Message (EventObject (reply 1 DataOther)); Resume 1; Elapse 30000;
             TimerFires; Resume 0; Resume 0] (initial "ocr.html"))
     = [Returned (VArray []); Returned VUndefined]
  /\ posted
       (run [CallStartOCR file (ContentFile "scan.png"); CallIsWebOcrReady;
             Message (EventObject (reply 1 DataOther)); Resume 1; Elapse 30000;
             TimerFires; Resume 0; Resume 0] (initial "ocr.html"))
     = [].
Proof.
  assert (H : sendMessageRef
    (run [CallStartOCR file (ContentFile "scan.png"); CallIsWebOcrReady;
          Message (EventObject (reply 1 DataOther)); Resume 1; Elapse 30000;
          TimerFires; Resume 0; Resume 0] (initial "ocr.html")) = false)
    by (vm_compute; reflexivity).
  split; [exact H | split; [vm_compute; reflexivity |]].
  exact (proj1 (nothing_sent_before_ready "ocr.html" _ H)).
Defined.

(** [startOCR] takes any reply to its readiness request as "ready": the
    value it tests is the whole envelope, which is an object, so
    whatever the envelope holds the call goes on to post the "startOcr"
    request, with its [type] and [content] under the next id, and waits
    for the reply to that. *)
Theorem startOCR_takes_any_reply_as_ready (st : State) (k p : nat)
  (type : OcrType) (content : Content) (e : Envelope) :
  calls st !! k = Some (Suspended (RequestPromise p) (startOCR_80 type content)) ->
  promises st !! p = Some (Fulfilled e) ->
  sendMessageRef st = true ->
  posted (step st (Resume k))
  = posted st ++ [{| m_key := key;
                     m_requestId := increment (getRequestID_id st);
                     m_action := "startOcr";
                     m_data := Some (type, content) |}]
  /\ calls (step st (Resume k)) !! k
     = Some (Suspended (RequestPromise (length (promises st))) startOCR_88)
  /\ promises (step st (Resume k)) !! length (promises st) = Some Pending.
Proof.
  intros Hk Hp Hs. cbn [step]. unfold resume. rewrite Hk. cbn [awaited].
  rewrite Hp. cbn [continue truthy negb]. unfold sendMessage. rewrite Hs.
  cbn [negb]. unfold sendMessageRef_call, getRequestID. fields.
  split; [reflexivity | split].
  - apply list_lookup_insert_eq. eapply lookup_lt_Some, Hk.
  - rewrite lookup_app_r by done. now rewrite Nat.sub_diag.
Qed.

Lemma startOCR_takes_any_reply_as_ready_witness :
  calls (run [CallStartOCR url (ContentString "https://a/b.png");
              Message (EventObject ready_envelope); Resume 0;
              Message (EventObject (reply 1 DataFalsy))] (initial "ocr.html"))
    !! 0%nat
  = Some (Suspended (RequestPromise 0)
            (startOCR_80 url (ContentString "https://a/b.png")))
  /\ map m_action
       (posted (step (run [CallStartOCR url (ContentString "https://a/b.png");
                           Message (EventObject ready_envelope); Resume 0;
                           Message (EventObject (reply 1 DataFalsy))]
                        (initial "ocr.html")) (Resume 0)))
     = map m_action
         (posted (run [CallStartOCR url (ContentString "https://a/b.png");
                       Message (EventObject ready_envelope); Resume 0;
                       Message (EventObject (reply 1 DataFalsy))]
                    (initial "ocr.html"))) ++ ["startOcr"].
Proof.
  assert (H : calls (run [CallStartOCR url (ContentString "https://a/b.png");
              Message (EventObject ready_envelope); Resume 0;
              Message (EventObject (reply 1 DataFalsy))] (initial "ocr.html"))
    !! 0%nat
  = Some (Suspended (RequestPromise 0)
            (startOCR_80 url (ContentString "https://a/b.png"))))
    by (vm_compute; reflexivity).
  split; [exact H |].
  destruct (startOCR_takes_any_reply_as_ready _ 0%nat 0%nat url
              (ContentString "https://a/b.png") (reply 1 DataFalsy) H
              eq_refl eq_refl) as (-> & _).
  rewrite map_app. reflexivity.
Defined.

(** The end of a [startOCR] call: once the reply to its "startOcr"
    request is there, the call returns the post-processed data of that
    reply and sends nothing more; when the data is an array of regions
    whose coordinates are doubles, what is returned is those regions with
    neither coordinate NaN, in reading order; when the reply has no data,
    it is the empty array. *)
Theorem startOCR_returns_sorted_regions (st : State) (k p : nat) (e : Envelope) :
  calls st !! k = Some (Suspended (RequestPromise p) startOCR_88) ->
  promises st !! p = Some (Fulfilled e) ->
  calls (step st (Resume k)) !! k = Some (Returned (normalize (e_data e)))
  /\ posted (step st (Resume k)) = posted st
  /\ (e_data e = DataFalsy -> normalize (e_data e) = VArray [])
  /\ (forall rs, e_data e = DataArray (map ItemRegion rs) ->
        Forall well_formed rs ->
        exists out,
          normalize (e_data e) = VArray (map ItemRegion out)
          /\ Permutation (List.filter retained rs) out
          /\ StronglySorted reading_order out).
Proof.
  intros Hk Hp. cbn [step]. unfold resume. rewrite Hk. cbn [awaited].
  rewrite Hp. cbn [continue res_data]. fields.
  split; [| split; [reflexivity | split]].
  - apply list_lookup_insert_eq. eapply lookup_lt_Some, Hk.
  - intros ->. reflexivity.
  - intros rs -> Hwf. now apply normalize_regions.
Qed.

Lemma startOCR_returns_sorted_regions_witness :
  calls (run [CallStartOCR url (ContentString "https://a/b.png");
              Message (EventObject ready_envelope); Resume 0;
              Message (EventObject (reply 1 DataFalsy)); Resume 0;
              Message (EventObject
                         (reply 2 (DataArray (map ItemRegion sample_regions))))]
           (initial "ocr.html")) !! 0%nat
  = Some (Suspended (RequestPromise 1) startOCR_88)
  /\ calls (step (run [CallStartOCR url (ContentString "https://a/b.png");
                       Message (EventObject ready_envelope); Resume 0;
                       Message (EventObject (reply 1 DataFalsy)); Resume 0;
                       Message (EventObject
                                  (reply 2 (DataArray
                                              (map ItemRegion sample_regions))))]
                    (initial "ocr.html")) (Resume 0)) !! 0%nat
     = Some (Returned
               (normalize
                  (e_data (reply 2 (DataArray (map ItemRegion sample_regions)))))).
Proof.
  assert (H : calls (run [CallStartOCR url (ContentString "https://a/b.png");
              Message (EventObject ready_envelope); Resume 0;
              Message (EventObject (reply 1 DataFalsy)); Resume 0;
              Message (EventObject
                         (reply 2 (DataArray (map ItemRegion sample_regions))))]
           (initial "ocr.html")) !! 0%nat
  = Some (Suspended (RequestPromise 1) startOCR_88))
    by (vm_compute; reflexivity).
  split; [exact H |].
  assert (H' : promises (run [CallStartOCR url (ContentString "https://a/b.png");
              Message (EventObject ready_envelope); Resume 0;
              Message (EventObject (reply 1 DataFalsy)); Resume 0;
              Message (EventObject
                         (reply 2 (DataArray (map ItemRegion sample_regions))))]
           (initial "ocr.html")) !! 1%nat
        = Some (Fulfilled (reply 2 (DataArray (map ItemRegion sample_regions)))))
    by (vm_compute; reflexivity).
  exact (proj1 (startOCR_returns_sorted_regions _ 0%nat 1%nat _ H H')).
Defined.

(** ** The handle of the editor wrapper, with an editor *)



